(** * lightstep-tracer-go: tracer options and their initialisation

    A shallow embedding of [interfaces.go]: the [Endpoint] and [Options]
    structs, the default constants, and [Options.Initialize], which
    validates the options and fills in the defaults in place; then the
    report buffer and the reporting engine behind the [collectorClient]
    and [Tracer] interfaces, as the specification describes them. *)

From Stdlib Require Import ZArith QArith Qround Qpower String Ascii List Bool.
From Stdlib Require Import Lia Lqa.
From Stdlib Require PrimFloat FloatOps SpecFloat Uint63.
From Stdlib Require Import DecimalString DecimalPos DecimalZ.
From stdpp Require Import base gmap strings.
Import ListNotations.

Local Close Scope Q_scope.
Local Open Scope string_scope.
Local Open Scope Z_scope.

(** ** Go values used by the options *)

(** [time.Duration]: a signed count of nanoseconds. *)
Definition Duration := Z.

Definition Nanosecond : Duration := 1.
Definition Microsecond : Duration := 1000 * Nanosecond.
Definition Millisecond : Duration := 1000 * Microsecond.
Definition Second : Duration := 1000 * Millisecond.
Definition Minute : Duration := 60 * Second.

(** [interface{}] values stored in [ot.Tags]. *)
Inductive any : Type :=
| AString (s : string)
| AInt (n : Z)
| ABool (b : bool).

(** [ot.Tags] is [map[string]interface{}]; a Go map value may be [nil]. *)
Inductive Tags_t : Type :=
| NilMap
| Map (m : gmap string any).

(** Interface and function values that [Options] only carries around. *)
Inductive ref : Type :=
| NilRef
| Ref (addr : positive).

(** [error]: [None] is [nil]. *)
Definition error := option string.

(** ** Default Option values *)

Definition DefaultCollectorPath := "/_rpc/v1/reports/binary".
Definition DefaultPlainPort : Z := 80.
Definition DefaultSecurePort : Z := 443.
Definition DefaultThriftCollectorHost := "collector.lightstep.com".
Definition DefaultGRPCCollectorHost := "collector-grpc.lightstep.com".

Definition DefaultMaxReportingPeriod : Duration := 2500 * Millisecond.
Definition DefaultMinReportingPeriod : Duration := 500 * Millisecond.
Definition DefaultMaxSpans : Z := 1000.
Definition DefaultReportTimeout : Duration := 30 * Second.
Definition DefaultReconnectPeriod : Duration := 5 * Minute.

Definition DefaultMaxLogKeyLen : Z := 256.
Definition DefaultMaxLogValueLen : Z := 1024.
Definition DefaultMaxLogsPerSpan : Z := 500.

(** [math.MaxInt32] *)
Definition DefaultGRPCMaxCallSendMsgSizeBytes : Z := 2147483647.

(** ** Tag and Tracer Attribute keys *)

Definition ParentSpanGUIDKey := "parent_span_guid".
Definition ComponentNameKey := "lightstep.component_name".
Definition GUIDKey := "lightstep.guid".
Definition HostnameKey := "lightstep.hostname".
Definition CommandLineKey := "lightstep.command_line".

(** ** Endpoint and Options *)

Record Endpoint : Type := mkEndpoint {
  Host : string;
  Port : Z;
  Plaintext : bool
}.

Record Options : Type := mkOptions {
  AccessToken : string;
  Collector : Endpoint;
  Tags : Tags_t;
  LightStepAPI : Endpoint;
  MaxBufferedSpans : Z;
  MaxLogKeyLen : Z;
  MaxLogValueLen : Z;
  MaxLogsPerSpan : Z;
  GRPCMaxCallSendMsgSizeBytes : Z;
  ReportingPeriod : Duration;
  MinReportingPeriod : Duration;
  ReportTimeout : Duration;
  DropSpanLogs : bool;
  Verbose : bool;
  UseThrift : bool;
  UseHttp : bool;
  UseGRPC : bool;
  ReconnectPeriod : Duration;
  Recorder : ref;
  ConnFactory : ref
}.

(** Field assignments [opts.F = v]. *)

Definition set_Host (v : string) (e : Endpoint) : Endpoint :=
  mkEndpoint v (Port e) (Plaintext e).

Definition set_Port (v : Z) (e : Endpoint) : Endpoint :=
  mkEndpoint (Host e) v (Plaintext e).

Definition set_Collector (v : Endpoint) (o : Options) : Options :=
  mkOptions (AccessToken o) v (Tags o) (LightStepAPI o)
    (MaxBufferedSpans o) (MaxLogKeyLen o) (MaxLogValueLen o) (MaxLogsPerSpan o)
    (GRPCMaxCallSendMsgSizeBytes o) (ReportingPeriod o) (MinReportingPeriod o)
    (ReportTimeout o) (DropSpanLogs o) (Verbose o) (UseThrift o) (UseHttp o)
    (UseGRPC o) (ReconnectPeriod o) (Recorder o) (ConnFactory o).

Definition set_Tags (v : Tags_t) (o : Options) : Options :=
  mkOptions (AccessToken o) (Collector o) v (LightStepAPI o)
    (MaxBufferedSpans o) (MaxLogKeyLen o) (MaxLogValueLen o) (MaxLogsPerSpan o)
    (GRPCMaxCallSendMsgSizeBytes o) (ReportingPeriod o) (MinReportingPeriod o)
    (ReportTimeout o) (DropSpanLogs o) (Verbose o) (UseThrift o) (UseHttp o)
    (UseGRPC o) (ReconnectPeriod o) (Recorder o) (ConnFactory o).

Definition set_MaxBufferedSpans (v : Z) (o : Options) : Options :=
  mkOptions (AccessToken o) (Collector o) (Tags o) (LightStepAPI o)
    v (MaxLogKeyLen o) (MaxLogValueLen o) (MaxLogsPerSpan o)
    (GRPCMaxCallSendMsgSizeBytes o) (ReportingPeriod o) (MinReportingPeriod o)
    (ReportTimeout o) (DropSpanLogs o) (Verbose o) (UseThrift o) (UseHttp o)
    (UseGRPC o) (ReconnectPeriod o) (Recorder o) (ConnFactory o).

Definition set_MaxLogKeyLen (v : Z) (o : Options) : Options :=
  mkOptions (AccessToken o) (Collector o) (Tags o) (LightStepAPI o)
    (MaxBufferedSpans o) v (MaxLogValueLen o) (MaxLogsPerSpan o)
    (GRPCMaxCallSendMsgSizeBytes o) (ReportingPeriod o) (MinReportingPeriod o)
    (ReportTimeout o) (DropSpanLogs o) (Verbose o) (UseThrift o) (UseHttp o)
    (UseGRPC o) (ReconnectPeriod o) (Recorder o) (ConnFactory o).

Definition set_MaxLogValueLen (v : Z) (o : Options) : Options :=
  mkOptions (AccessToken o) (Collector o) (Tags o) (LightStepAPI o)
    (MaxBufferedSpans o) (MaxLogKeyLen o) v (MaxLogsPerSpan o)
    (GRPCMaxCallSendMsgSizeBytes o) (ReportingPeriod o) (MinReportingPeriod o)
    (ReportTimeout o) (DropSpanLogs o) (Verbose o) (UseThrift o) (UseHttp o)
    (UseGRPC o) (ReconnectPeriod o) (Recorder o) (ConnFactory o).

Definition set_MaxLogsPerSpan (v : Z) (o : Options) : Options :=
  mkOptions (AccessToken o) (Collector o) (Tags o) (LightStepAPI o)
    (MaxBufferedSpans o) (MaxLogKeyLen o) (MaxLogValueLen o) v
    (GRPCMaxCallSendMsgSizeBytes o) (ReportingPeriod o) (MinReportingPeriod o)
    (ReportTimeout o) (DropSpanLogs o) (Verbose o) (UseThrift o) (UseHttp o)
    (UseGRPC o) (ReconnectPeriod o) (Recorder o) (ConnFactory o).

Definition set_GRPCMaxCallSendMsgSizeBytes (v : Z) (o : Options) : Options :=
  mkOptions (AccessToken o) (Collector o) (Tags o) (LightStepAPI o)
    (MaxBufferedSpans o) (MaxLogKeyLen o) (MaxLogValueLen o) (MaxLogsPerSpan o)
    v (ReportingPeriod o) (MinReportingPeriod o)
    (ReportTimeout o) (DropSpanLogs o) (Verbose o) (UseThrift o) (UseHttp o)
    (UseGRPC o) (ReconnectPeriod o) (Recorder o) (ConnFactory o).

Definition set_ReportingPeriod (v : Duration) (o : Options) : Options :=
  mkOptions (AccessToken o) (Collector o) (Tags o) (LightStepAPI o)
    (MaxBufferedSpans o) (MaxLogKeyLen o) (MaxLogValueLen o) (MaxLogsPerSpan o)
    (GRPCMaxCallSendMsgSizeBytes o) v (MinReportingPeriod o)
    (ReportTimeout o) (DropSpanLogs o) (Verbose o) (UseThrift o) (UseHttp o)
    (UseGRPC o) (ReconnectPeriod o) (Recorder o) (ConnFactory o).

Definition set_MinReportingPeriod (v : Duration) (o : Options) : Options :=
  mkOptions (AccessToken o) (Collector o) (Tags o) (LightStepAPI o)
    (MaxBufferedSpans o) (MaxLogKeyLen o) (MaxLogValueLen o) (MaxLogsPerSpan o)
    (GRPCMaxCallSendMsgSizeBytes o) (ReportingPeriod o) v
    (ReportTimeout o) (DropSpanLogs o) (Verbose o) (UseThrift o) (UseHttp o)
    (UseGRPC o) (ReconnectPeriod o) (Recorder o) (ConnFactory o).

Definition set_ReportTimeout (v : Duration) (o : Options) : Options :=
  mkOptions (AccessToken o) (Collector o) (Tags o) (LightStepAPI o)
    (MaxBufferedSpans o) (MaxLogKeyLen o) (MaxLogValueLen o) (MaxLogsPerSpan o)
    (GRPCMaxCallSendMsgSizeBytes o) (ReportingPeriod o) (MinReportingPeriod o)
    v (DropSpanLogs o) (Verbose o) (UseThrift o) (UseHttp o)
    (UseGRPC o) (ReconnectPeriod o) (Recorder o) (ConnFactory o).

Definition set_ReconnectPeriod (v : Duration) (o : Options) : Options :=
  mkOptions (AccessToken o) (Collector o) (Tags o) (LightStepAPI o)
    (MaxBufferedSpans o) (MaxLogKeyLen o) (MaxLogValueLen o) (MaxLogsPerSpan o)
    (GRPCMaxCallSendMsgSizeBytes o) (ReportingPeriod o) (MinReportingPeriod o)
    (ReportTimeout o) (DropSpanLogs o) (Verbose o) (UseThrift o) (UseHttp o)
    (UseGRPC o) v (Recorder o) (ConnFactory o).

(** An assignment to a field of a struct literal computes. *)
Arguments set_Host _ !_ /.
Arguments set_Port _ !_ /.
Arguments set_Collector _ !_ /.
Arguments set_Tags _ !_ /.
Arguments set_MaxBufferedSpans _ !_ /.
Arguments set_MaxLogKeyLen _ !_ /.
Arguments set_MaxLogValueLen _ !_ /.
Arguments set_MaxLogsPerSpan _ !_ /.
Arguments set_GRPCMaxCallSendMsgSizeBytes _ !_ /.
Arguments set_ReportingPeriod _ !_ /.
Arguments set_MinReportingPeriod _ !_ /.
Arguments set_ReportTimeout _ !_ /.
Arguments set_ReconnectPeriod _ !_ /.

(** ** The process environment read by [Initialize] *)

(** [os.Args], the first result of [os.Hostname()] and the value drawn by
    [rand.Float64()]; then the two points the language leaves to the
    implementation: whether [x*y + z] is fused into one operation (the
    compiler does so on arm64, ppc64, s390x and riscv64, not on amd64), and
    what a float64 that does not fit an [int64] converts to. *)
Record Env : Type := mkEnv {
  Args : list string;
  Hostname : string;
  Float64 : Q;
  FusedMultiplyAdd : bool;
  Int64OutOfRange : Q -> Z
}.

(** [strings.Join(elems, sep)] *)
Definition strings_Join (elems : list string) (sep : string) : string :=
  String.concat sep elems.

(** [path.Base]: the last element of a slash-separated path, after trailing
    slashes are removed; "." for the empty path and "/" for a path of
    slashes only. *)
Fixpoint stripTrailingSlashes (p : string) : string :=
  match p with
  | EmptyString => EmptyString
  | String c p' =>
      match stripTrailingSlashes p' with
      | EmptyString => if Ascii.eqb c "/" then EmptyString else String c EmptyString
      | t => String c t
      end
  end.

Fixpoint hasSlash (p : string) : bool :=
  match p with
  | EmptyString => false
  | String c p' => Ascii.eqb c "/" || hasSlash p'
  end.

Fixpoint afterLastSlash (p : string) : string :=
  match p with
  | EmptyString => EmptyString
  | String c p' =>
      if hasSlash p' then afterLastSlash p'
      else if Ascii.eqb c "/" then p' else p
  end.

Definition path_Base (p : string) : string :=
  match p with
  | EmptyString => "."
  | _ =>
      match afterLastSlash (stripTrailingSlashes p) with
      | EmptyString => "/"
      | b => b
      end
  end.

(** ** float64 arithmetic

    A finite IEEE 754 binary64 value is the rational number it denotes.
    Every operation computes the exact result and rounds it to 53
    significant bits, to nearest with ties to even; below [2^-1022] the
    spacing stays [2^-1074] (subnormal numbers).  Operands derived from an
    [int64] and a draw below one never come near the overflow threshold. *)
Module float64.

Definition pow2 (e : Z) : Q := Qpower 2 e.

(** [ilog2 q] is the integer [e] with [2^e <= q < 2^(e+1)], for [0 < q]. *)
Definition ilog2 (q : Q) : Z :=
  if Qle_bool 1 q then Z.log2 (Qfloor q) else - Z.log2_up (Qceiling (/ q)).

(** Nearest integer, ties to even. *)
Definition half_even (q : Q) : Z :=
  let f := Qfloor q in
  match Qcompare (q - inject_Z f)%Q (1 # 2) with
  | Lt => f
  | Gt => f + 1
  | Eq => if Z.even f then f else f + 1
  end.

Definition emin : Z := -1022.

(** The exponent of the binade of [q]; [emin] for a subnormal [q]. *)
Definition expo (q : Q) : Z := Z.max (ilog2 q) emin.

Definition round_pos (q : Q) : Q :=
  let e := expo q in
  (inject_Z (half_even (q * pow2 (52 - e))) * pow2 (e - 52))%Q.

Definition round (q : Q) : Q :=
  match Qcompare q 0 with
  | Eq => 0%Q
  | Gt => Qred (round_pos q)
  | Lt => Qred (- round_pos (- q))
  end.

Definition add (x y : Q) : Q := round (x + y).
Definition mul (x y : Q) : Q := round (x * y).

(** The fused multiply-add [x*y + z], rounded once. *)
Definition fma (x y z : Q) : Q := round (x * y + z).

(** A constant of the program text, converted to float64. *)
Definition const (q : Q) : Q := round q.

(** The conversion [float64(n)] of an integer. *)
Definition of_int (n : Z) : Q := round (inject_Z n).

(** Truncation toward zero. *)
Definition trunc (x : Q) : Z := Z.quot (Qnum x) (Z.pos (Qden x)).

Definition minInt64 : Z := - 2 ^ 63.
Definition maxInt64 : Z := 2 ^ 63 - 1.

(** The conversion [int64(x)] of a float64 discards the fraction.  When
    the result does not fit the conversion still succeeds, with a value
    that depends on the implementation: [outOfRange x]. *)
Definition to_int64 (outOfRange : Q -> Z) (x : Q) : Z :=
  let n := trunc x in
  if (minInt64 <=? n) && (n <=? maxInt64) then n else outOfRange x.

End float64.

(** ** Statements over the options

    [Initialize] has a pointer receiver: it updates [*opts] in place and
    leaves through [return] or a run-time panic. *)

Inductive signal : Type :=
| Return (err : error)
| Panic (msg : string).

(** A statement maps the options to the updated options and, when it leaves
    the function, the way it does. *)
Definition Stmt : Type := Options -> Options * option signal.

Definition seq (s t : Stmt) : Stmt :=
  fun o => match s o with
           | (o', None) => t o'
           | (o', Some sg) => (o', Some sg)
           end.

Definition skip : Stmt := fun o => (o, None).
Definition assign (f : Options -> Options) : Stmt := fun o => (f o, None).
Definition ret (e : error) : Stmt := fun o => (o, Some (Return e)).
Definition panic (msg : string) : Stmt := fun o => (o, Some (Panic msg)).

Definition If (c : Options -> bool) (s : Stmt) : Stmt :=
  fun o => if c o then s o else skip o.

Definition IfElse (c : Options -> bool) (s t : Stmt) : Stmt :=
  fun o => if c o then s o else t o.

Declare Scope stmt_scope.
Delimit Scope stmt_scope with stmt.
Bind Scope stmt_scope with Stmt.
Notation "s ;; t" := (seq s t)
  (at level 100, t at level 200, right associativity) : stmt_scope.

(** [_, found := m[k]]; reading a nil map finds nothing. *)
Definition found (k : string) (t : Tags_t) : bool :=
  match t with
  | NilMap => false
  | Map m => match m !! k with Some _ => true | None => false end
  end.

(** [opts.Tags[k] = v]; assigning into a nil map panics. *)
Definition set_Tag (k : string) (v : any) : Stmt :=
  fun o => match Tags o with
           | NilMap => panic "assignment to entry in nil map" o
           | Map m => assign (set_Tags (Map (<[k := v]> m))) o
           end.

(** [os.Args[0]]; indexing an empty slice panics. *)
Definition with_Args0 (env : Env) (k : string -> Stmt) : Stmt :=
  match Args env with
  | [] => panic "index out of range [0] with length 0"
  | a :: _ => k a
  end.

Definition errAccessToken : string :=
  "LightStep Recorder options.AccessToken must not be empty".

(** [fmt.Errorf("Passing in your own %v is no longer supported\n", GUIDKey)] *)
Definition errGUID : string :=
  "Passing in your own " ++ GUIDKey ++ " is no longer supported"
  ++ String (ascii_of_nat 10) "".

(** ** Options.Initialize *)

(** [1 + 0.2*rand.Float64()] *)
Definition factor (fused : bool) (r : Q) : Q :=
  if fused then float64.fma (float64.const (2 # 10)) r (float64.const 1)
  else float64.add (float64.const 1) (float64.mul (float64.const (2 # 10)) r).

(** [time.Duration(float64(d) * (1 + 0.2*rand.Float64()))] *)
Definition jitter (env : Env) (d : Duration) : Duration :=
  float64.to_int64 (Int64OutOfRange env)
    (float64.mul (float64.of_int d)
       (factor (FusedMultiplyAdd env) (Float64 env))).

Definition Initialize (env : Env) : Stmt :=
  (If (fun opts => (Z.of_nat (String.length (AccessToken opts)) =? 0))
      (ret (Some errAccessToken)) ;;
   If (fun opts => found GUIDKey (Tags opts))
      (ret (Some errGUID)) ;;

   If (fun opts => MaxBufferedSpans opts =? 0)
      (assign (set_MaxBufferedSpans DefaultMaxSpans)) ;;
   If (fun opts => MaxLogKeyLen opts =? 0)
      (assign (set_MaxLogKeyLen DefaultMaxLogKeyLen)) ;;
   If (fun opts => MaxLogValueLen opts =? 0)
      (assign (set_MaxLogValueLen DefaultMaxLogValueLen)) ;;
   If (fun opts => MaxLogsPerSpan opts =? 0)
      (assign (set_MaxLogsPerSpan DefaultMaxLogsPerSpan)) ;;
   If (fun opts => GRPCMaxCallSendMsgSizeBytes opts =? 0)
      (assign (set_GRPCMaxCallSendMsgSizeBytes DefaultGRPCMaxCallSendMsgSizeBytes)) ;;
   If (fun opts => ReportingPeriod opts =? 0)
      (assign (set_ReportingPeriod DefaultMaxReportingPeriod)) ;;
   If (fun opts => MinReportingPeriod opts =? 0)
      (assign (set_MinReportingPeriod DefaultMinReportingPeriod)) ;;
   If (fun opts => ReportTimeout opts =? 0)
      (assign (set_ReportTimeout DefaultReportTimeout)) ;;
   If (fun opts => ReconnectPeriod opts =? 0)
      (assign (set_ReconnectPeriod DefaultReconnectPeriod)) ;;
   If (fun opts => match Tags opts with NilMap => true | Map _ => false end)
      (assign (set_Tags (Map ∅))) ;;

   If (fun opts => negb (found ComponentNameKey (Tags opts)))
      (with_Args0 env (fun arg0 =>
         set_Tag ComponentNameKey (AString (path_Base arg0)))) ;;
   If (fun opts => negb (found HostnameKey (Tags opts)))
      (set_Tag HostnameKey (AString (Hostname env))) ;;
   If (fun opts => negb (found CommandLineKey (Tags opts)))
      (set_Tag CommandLineKey (AString (strings_Join (Args env) " "))) ;;

   assign (fun opts =>
     set_ReconnectPeriod (jitter env (ReconnectPeriod opts)) opts) ;;

   If (fun opts => String.eqb (Host (Collector opts)) "")
      (IfElse UseThrift
         (assign (fun opts =>
            set_Collector (set_Host DefaultThriftCollectorHost (Collector opts)) opts))
         (assign (fun opts =>
            set_Collector (set_Host DefaultGRPCCollectorHost (Collector opts)) opts))) ;;

   If (fun opts => Port (Collector opts) <=? 0)
      (IfElse (fun opts => Plaintext (Collector opts))
         (assign (fun opts =>
            set_Collector (set_Port DefaultPlainPort (Collector opts)) opts))
         (assign (fun opts =>
            set_Collector (set_Port DefaultSecurePort (Collector opts)) opts))) ;;

   ret None)%stmt.

(** ** The options a successful [Initialize] leaves behind *)

Definition orDefault (d v : Z) : Z := if v =? 0 then d else v.

Definition mapOf (t : Tags_t) : gmap string any :=
  match t with NilMap => ∅ | Map m => m end.

Definition addDefault (k : string) (v : any) (m : gmap string any)
  : gmap string any :=
  match m !! k with Some _ => m | None => <[k := v]> m end.

Definition initializedTags (env : Env) (t : Tags_t) : gmap string any :=
  addDefault CommandLineKey (AString (strings_Join (Args env) " "))
    (addDefault HostnameKey (AString (Hostname env))
       (addDefault ComponentNameKey (AString (path_Base (hd "" (Args env))))
          (mapOf t))).

Definition initializedCollector (useThrift : bool) (e : Endpoint) : Endpoint :=
  mkEndpoint
    (if String.eqb (Host e) "" then
       if useThrift then DefaultThriftCollectorHost else DefaultGRPCCollectorHost
     else Host e)
    (if Port e <=? 0 then
       if Plaintext e then DefaultPlainPort else DefaultSecurePort
     else Port e)
    (Plaintext e).

Definition initialized (env : Env) (o : Options) : Options :=
  mkOptions (AccessToken o)
    (initializedCollector (UseThrift o) (Collector o))
    (Map (initializedTags env (Tags o)))
    (LightStepAPI o)
    (orDefault DefaultMaxSpans (MaxBufferedSpans o))
    (orDefault DefaultMaxLogKeyLen (MaxLogKeyLen o))
    (orDefault DefaultMaxLogValueLen (MaxLogValueLen o))
    (orDefault DefaultMaxLogsPerSpan (MaxLogsPerSpan o))
    (orDefault DefaultGRPCMaxCallSendMsgSizeBytes (GRPCMaxCallSendMsgSizeBytes o))
    (orDefault DefaultMaxReportingPeriod (ReportingPeriod o))
    (orDefault DefaultMinReportingPeriod (MinReportingPeriod o))
    (orDefault DefaultReportTimeout (ReportTimeout o))
    (DropSpanLogs o) (Verbose o) (UseThrift o) (UseHttp o) (UseGRPC o)
    (jitter env (orDefault DefaultReconnectPeriod (ReconnectPeriod o)))
    (Recorder o) (ConnFactory o).

(** The two checks that make [Initialize] return an error. *)
Definition emptyToken (o : Options) : bool :=
  Z.of_nat (String.length (AccessToken o)) =? 0.

Definition hasGUID (o : Options) : bool := found GUIDKey (Tags o).

(** The one way [Initialize] can panic: no component name tag and an empty
    [os.Args]. *)
Definition needsArgs0 (env : Env) (o : Options) : bool :=
  negb (found ComponentNameKey (Tags o)) &&
  match Args env with [] => true | _ :: _ => false end.

(** ** The scaling of the reconnect period *)

(** The float64 product [float64(d) * (1 + 0.2*r)], truncated. *)
Definition scale (fused : bool) (r : Q) (d : Z) : Z :=
  float64.trunc (float64.mul (float64.of_int d) (factor fused r)).

(** The float64 nearest to 1.2, which is below 1.2: the largest value of
    [1 + 0.2*r] for a draw [r] below one. *)
Definition maxFactor : Q := 5404319552844595 # 4503599627370496.

(** The outcomes of [Initialize], by the checks that decide them. *)
Inductive Initialize_outcome (env : Env) (o : Options)
  : Options * option signal -> Prop :=
| Init_emptyToken :
    emptyToken o = true ->
    Initialize_outcome env o (o, Some (Return (Some errAccessToken)))
| Init_hasGUID :
    emptyToken o = false -> hasGUID o = true ->
    Initialize_outcome env o (o, Some (Return (Some errGUID)))
| Init_panic o' msg :
    emptyToken o = false -> hasGUID o = false -> needsArgs0 env o = true ->
    Initialize_outcome env o (o', Some (Panic msg))
| Init_ok :
    emptyToken o = false -> hasGUID o = false -> needsArgs0 env o = false ->
    Initialize_outcome env o (initialized env o, Some (Return None)).

(** ** Transport selection *)

Inductive Transport : Type := Thrift | HTTP | GRPC.

(** Modelled from the spec: the constructor that picks the collector client
    is not among the sources.  The order is the one documented on the
    [UseThrift], [UseHttp] and [UseGRPC] fields: thrift, then http, then
    grpc, and grpc when none is set. *)
Definition selectedTransport (o : Options) : Transport :=
  if UseThrift o then Thrift
  else if UseHttp o then HTTP
  else GRPC.

(** ** The report buffer *)

Section Reporting.
Context {RawSpan : Type}.

(** The log limits ([MaxLogKeyLen], [MaxLogValueLen], [MaxLogsPerSpan])
    applied to a span: the span as stored and the number of logs dropped. *)
Variable truncateLogs : RawSpan -> RawSpan * Z.

(** Modelled from the spec: the report buffer is not among the sources.
    Sections 3 and 4.1: an ordered sequence of pending spans and two
    counters, spans dropped for capacity and logs dropped by truncation. *)
Record reportBuffer : Type := mkBuffer {
  rawSpans : list RawSpan;
  droppedSpanCount : Z;
  droppedLogCount : Z
}.

Definition emptyBuffer : reportBuffer := mkBuffer [] 0 0.

(** Modelled from the spec: what [Append] returns (section 4.1), for the
    report buffer that is not among the sources. *)
Inductive appendResult : Type := Accepted | Dropped.

(** Modelled from the spec: [Append] of the report buffer, which is not
    among the sources.  Section 4.1: below capacity the span is appended
    and the call returns "accepted"; at capacity the dropped-span counter is
    incremented and the call returns "dropped". *)
Definition Append (maxBufferedSpans : Z) (b : reportBuffer) (span : RawSpan)
  : reportBuffer * appendResult :=
  if Z.of_nat (length (rawSpans b)) <? maxBufferedSpans then
    (mkBuffer (rawSpans b ++ [fst (truncateLogs span)])
       (droppedSpanCount b)
       (droppedLogCount b + snd (truncateLogs span)),
     Accepted)
  else
    (mkBuffer (rawSpans b) (droppedSpanCount b + 1) (droppedLogCount b),
     Dropped).

(** Modelled from the spec: [Snapshot] of the report buffer (section 4.1):
    the storage is exchanged with an empty one; the result is the new
    buffer and the previous contents with their counters. *)
Definition Snapshot (b : reportBuffer) : reportBuffer * reportBuffer :=
  (emptyBuffer, b).

Definition bufferLength (b : reportBuffer) : Z :=
  Z.of_nat (length (rawSpans b)).

(** A sequence of [Append] calls. *)
Definition appendAll (maxBufferedSpans : Z) (b : reportBuffer)
    (spans : list RawSpan) : reportBuffer :=
  fold_left (fun b span => fst (Append maxBufferedSpans b span)) spans b.

(** ** The reporting engine *)

(** Modelled from the spec: the states of the reporting engine (section
    4.3); the engine is not among the sources. *)
Inductive EngineState : Type :=
| Connecting | Idle | Reporting | Reconnecting | Disabled.

(** What the collector client gives back for one [Report] call: a response
    with its error strings and [Disable()] flag, or a transport error
    together with the client's [ShouldReconnect()]. *)
Inductive reportResult : Type :=
| Response (errors : list string) (disable : bool)
| TransportError (shouldReconnect : bool).

(** Modelled from the spec: what the engine reacts to (sections 4.3 and 5):
    a recorded span, the three flush triggers, the outcome of a connection
    attempt, the periodic rotation, and the tracer's [Disable] and [Close].
    A trigger carries the result the collector client would give if the
    engine made a [Report] call for it. *)
Inductive event : Type :=
| RecordSpan (span : RawSpan)
| Timer (r : reportResult)
| BufferFull (r : reportResult)
| Flush (r : reportResult)
| Connected (ok : bool)
| Rotate
| DisableCall
| Close (r : reportResult).

(** Modelled from the spec: the reporting engine is not among the sources.
    Section 3, engine runtime state: the state of section 4.3, the buffer,
    whether a connection is held, and, as a record of the network traffic,
    the [Report] calls made so far, newest first.  The reporting period is left out. *)
Record engine : Type := mkEngine {
  state : EngineState;
  buffer : reportBuffer;
  connection : bool;
  reportCalls : list (list RawSpan)
}.

(** Modelled from the spec: one pass through [Reporting] (section 4.3).
    The buffer is snapshot; an empty snapshot skips the network call; the
    call's result decides the next state. [Reconnecting] closes the
    connection and re-enters [Connecting]. *)
Definition report (r : reportResult) (e : engine) : engine :=
  let (fresh, snapshot) := Snapshot (buffer e) in
  match rawSpans snapshot with
  | [] => mkEngine Idle fresh (connection e) (reportCalls e)
  | spans =>
      let calls := spans :: reportCalls e in
      match r with
      | Response _ true => mkEngine Disabled fresh false calls
      | Response _ false => mkEngine Idle fresh (connection e) calls
      | TransportError true => mkEngine Connecting fresh false calls
      | TransportError false => mkEngine Idle fresh (connection e) calls
      end
  end.

(** Modelled from the spec: the transition table of section 4.3 and the
    manual operations below it.  In [Disabled] every event is a no-op;
    [Close] makes a final flush attempt and ends in [Disabled] regardless. *)
Definition step (maxBufferedSpans : Z) (e : engine) (ev : event) : engine :=
  match state e with
  | Disabled => e
  | st =>
      match ev with
      | RecordSpan span =>
          mkEngine st (fst (Append maxBufferedSpans (buffer e) span))
            (connection e) (reportCalls e)
      | Timer r | BufferFull r | Flush r =>
          match st with Idle => report r e | _ => e end
      | Connected ok =>
          match st with
          | Connecting =>
              if ok then mkEngine Idle (buffer e) true (reportCalls e) else e
          | _ => e
          end
      | Rotate =>
          match st with
          | Idle => mkEngine Connecting (buffer e) false (reportCalls e)
          | _ => e
          end
      | DisableCall => mkEngine Disabled (buffer e) false (reportCalls e)
      | Close r =>
          let e' := match st with Idle => report r e | _ => e end in
          mkEngine Disabled (buffer e') false (reportCalls e')
      end
  end.

Definition run (maxBufferedSpans : Z) (e : engine) (evs : list event)
  : engine :=
  fold_left (step maxBufferedSpans) evs e.

(** A fresh engine: no connection yet, nothing buffered, nothing sent. *)
Definition newEngine : engine := mkEngine Connecting emptyBuffer false [].

(** The events after which the engine is to stay disabled: the tracer's
    [Disable] or [Close], or a trigger answered, for a non-empty buffer,
    by a response whose [Disable()] is set. *)
Definition disables (e : engine) (ev : event) : Prop :=
  match ev with
  | DisableCall | Close _ => True
  | Timer (Response _ true) | BufferFull (Response _ true)
  | Flush (Response _ true) =>
      state e = Idle /\ rawSpans (buffer e) <> []
  | _ => False
  end.

End Reporting.

(** ** The binary64 numbers of the kernel, to compare with *)

(** The rational denoted by a binary64 number of the kernel, when finite. *)
Definition SF2Q (f : SpecFloat.spec_float) : option Q :=
  match f with
  | SpecFloat.S754_zero _ => Some 0%Q
  | SpecFloat.S754_finite s m e =>
      let v := (inject_Z (Z.pos m) * float64.pow2 e)%Q in
      Some (Qred (if s then (- v)%Q else v))
  | _ => None
  end.

(** The quotient [n/d] as a binary64 number of the kernel. *)
Definition binary64 (n d : Z) : PrimFloat.float :=
  PrimFloat.div (PrimFloat.of_uint63 (Uint63.of_Z n))
    (PrimFloat.of_uint63 (Uint63.of_Z d)).

(** [float64(d) * (1 + 0.2*r)] on the kernel's binary64 numbers, for a
    non-negative [d] below [2^63]. *)
Definition scaleBinary64 (d : Z) (r : PrimFloat.float) : option Q :=
  SF2Q (FloatOps.Prim2SF
          (PrimFloat.mul (PrimFloat.of_uint63 (Uint63.of_Z d))
             (PrimFloat.add (binary64 1 1)
                (PrimFloat.mul (binary64 2 10) r)))).

(** ** Sample values *)

Definition zeroEndpoint : Endpoint := mkEndpoint "" 0 false.

(** [Options{}] *)
Definition zeroOptions : Options :=
  mkOptions "" zeroEndpoint NilMap zeroEndpoint 0 0 0 0 0 0 0 0
    false false false false false 0 NilRef NilRef.

(** [Options{AccessToken: tok}] *)
Definition tokenOptions (tok : string) : Options :=
  mkOptions tok zeroEndpoint NilMap zeroEndpoint 0 0 0 0 0 0 0 0
    false false false false false 0 NilRef NilRef.

(** The options of [examples/trivial]. *)
Definition trivialOptions : Options :=
  mkOptions "YOUR_ACCESS_TOKEN" (mkEndpoint "localhost" 9997 true) NilMap
    zeroEndpoint 0 0 0 0 0 0 0 0 false false false false true 0 NilRef NilRef.

(** On amd64 a float64 that does not fit converts to the least [int64]. *)
Definition amd64OutOfRange : Q -> Z := fun _ => float64.minInt64.

Definition sampleEnv : Env :=
  mkEnv ["./lightstep_trivial"; "--access_token=YOUR_ACCESS_TOKEN"]
    "build-host" (1 # 2) false amd64OutOfRange.

(** Options that carry a runtime GUID of the caller's and are otherwise
    those of [examples/trivial]. *)
Definition guidOptions : Options :=
  set_Tags (Map {[ GUIDKey := AString "0123456789abcdef" ]}) trivialOptions.

(** Options whose tags name the component and the host already. *)
Definition taggedOptions : Options :=
  set_Tags (Map (<[ ComponentNameKey := AString "checkout" ]>
                   {[ HostnameKey := AString "web-1" ]}))
    trivialOptions.

(** [Options{AccessToken: "token", ReconnectPeriod: d}] *)
Definition reconnectOptions (d : Duration) : Options :=
  set_ReconnectPeriod d (tokenOptions "token").

(** Options whose limits and periods are all negative. *)
Definition negativeOptions : Options :=
  mkOptions "token" (mkEndpoint "" (-5) true) NilMap zeroEndpoint
    (-1) (-2) (-3) (-4) (-9) (-5) (-6) (-7) false false false false false (-8)
    NilRef NilRef.

(** The largest draw of [rand.Float64()]: [1 - 2^-53]. *)
Definition maxDraw : Q := 9007199254740991 # 9007199254740992.

(** An amd64 process that draws [r]. *)
Definition envWith (r : Q) : Env :=
  mkEnv ["./lightstep_trivial"] "build-host" r false amd64OutOfRange.


(** ** Endpoint addresses *)

Definition secureProtocol := "https".
Definition plaintextProtocol := "http".

(** The verb [%d] of [fmt] for an integer: its decimal digits, after a
    minus sign when it is negative. *)
Definition fmt_d (n : Z) : string := NilZero.string_of_int (Z.to_int n).

(** [fmt.Sprintf("%s:%d", e.Host, e.Port)] *)
Definition HostPort (e : Endpoint) : string :=
  Host e ++ ":" ++ fmt_d (Port e).

(** [fmt.Sprintf("%s://%s:%d%s", protocol, e.Host, e.Port,
    DefaultCollectorPath)], with the protocol chosen by [e.Plaintext]. *)
Definition URL (e : Endpoint) : string :=
  if Plaintext e then
    plaintextProtocol ++ "://" ++ Host e ++ ":" ++ fmt_d (Port e)
    ++ DefaultCollectorPath
  else
    secureProtocol ++ "://" ++ Host e ++ ":" ++ fmt_d (Port e)
    ++ DefaultCollectorPath.

(** The protocol of the URL of an endpoint. *)
Definition scheme (e : Endpoint) : string :=
  if Plaintext e then plaintextProtocol else secureProtocol.

(** Whether a string holds the character [c]. *)
Fixpoint contains (c : ascii) (s : string) : bool :=
  match s with
  | EmptyString => false
  | String a s' => Ascii.eqb a c || contains c s'
  end.

(** ** Start span options *)

Section StartSpanOptions.

(** [ot.StartSpanOptions], of the opentracing package, and its zero
    value. *)
Context {OTStartSpanOptions : Type}.
Variable zeroOT : OTStartSpanOptions.

(** The three options of this package: [SetSpanID], [SetTraceID] and
    [SetParentSpanID], each a [uint64]. *)
Inductive lightStepStartSpanOption : Type :=
| SetSpanID (sid : Z)
| SetTraceID (sid : Z)
| SetParentSpanID (sid : Z).

(** An [ot.StartSpanOption] interface value: [nil]; one of the three
    options above (or a pointer to one, whose method set holds the same
    methods); a nil pointer to one of the three types, which has the
    methods but cannot be dereferenced for the call; or an option of another
    package, which is what its [Apply] does to the [ot.StartSpanOptions] it
    is handed, [None] when it panics. *)
Inductive StartSpanOption : Type :=
| NilOption
| LightStep (o : lightStepStartSpanOption)
| NilLightStep
| OpenTracing (apply : OTStartSpanOptions -> option OTStartSpanOptions).

Record startSpanOptions : Type := mkStartSpanOptions {
  sso_Options : OTStartSpanOptions;
  sso_SetSpanID : Z;
  sso_SetParentSpanID : Z;
  sso_SetTraceID : Z
}.


Definition applyLS (o : lightStepStartSpanOption) (sso : startSpanOptions)
  : startSpanOptions :=
  match o with
  | SetSpanID sid =>
      mkStartSpanOptions (sso_Options sso) sid (sso_SetParentSpanID sso)
        (sso_SetTraceID sso)
  | SetTraceID sid =>
      mkStartSpanOptions (sso_Options sso) (sso_SetSpanID sso)
        (sso_SetParentSpanID sso) sid
  | SetParentSpanID sid =>
      mkStartSpanOptions (sso_Options sso) (sso_SetSpanID sso) sid
        (sso_SetTraceID sso)
  end.

(** The body of the loop: the type switch on one option.  [nil] takes the
    default case, where the call of [Apply] on a nil interface value
    panics; a nil pointer takes the first case, where the call of the value
    method [applyLS] panics.  [None] is a panic. *)
Definition applyOption (opts : startSpanOptions) (o : StartSpanOption)
  : option startSpanOptions :=
  match o with
  | LightStep o => Some (applyLS o opts)
  | NilLightStep => None
  | OpenTracing apply =>
      match apply (sso_Options opts) with
      | Some ot' =>
          Some (mkStartSpanOptions ot' (sso_SetSpanID opts)
                  (sso_SetParentSpanID opts) (sso_SetTraceID opts))
      | None => None
      end
  | NilOption => None
  end.

(** [for _, o := range sso { ... }] from the options [opts]. *)
Fixpoint applyOptions (opts : startSpanOptions) (sso : list StartSpanOption)
  : option startSpanOptions :=
  match sso with
  | [] => Some opts
  | o :: sso' =>
      match applyOption opts o with
      | Some opts' => applyOptions opts' sso'
      | None => None
      end
  end.

Definition newStartSpanOptions (sso : list StartSpanOption)
  : option startSpanOptions :=
  applyOptions (mkStartSpanOptions zeroOT 0 0 0) sso.

(** The options of this package among [sso], and the others. *)
Definition isLightStep (o : StartSpanOption) : bool :=
  match o with LightStep _ => true | _ => false end.

Definition isSetSpanID (o : StartSpanOption) : bool :=
  match o with LightStep (SetSpanID _) => true | _ => false end.

Definition isSetTraceID (o : StartSpanOption) : bool :=
  match o with LightStep (SetTraceID _) => true | _ => false end.

Definition isSetParentSpanID (o : StartSpanOption) : bool :=
  match o with LightStep (SetParentSpanID _) => true | _ => false end.

Definition isNil (o : StartSpanOption) : bool :=
  match o with NilOption | NilLightStep => true | _ => false end.


End StartSpanOptions.

(** ** More sample values *)

(** The collector of [examples/trivial]. *)
Definition localCollector : Endpoint := mkEndpoint "localhost" 9997 true.

(** Start span options over a stand-in for [ot.StartSpanOptions] that
    keeps the operation tags: an import of a span under given ids, with a
    tag set before and after. *)
Definition tagOption (t : string) : @StartSpanOption (list string) :=
  OpenTracing (fun tags => Some (t :: tags)).

Definition importOptions : list (@StartSpanOption (list string)) :=
  [ tagOption "a"; LightStep (SetTraceID 7); LightStep (SetSpanID 1);
    LightStep (SetParentSpanID 3); tagOption "b"; LightStep (SetSpanID 2) ].

(** ** The options a panic of [Initialize] leaves behind *)

(** The options past the defaults of the limits and periods and the
    allocation of the tags, where [os.Args[0]] is read: the reconnect
    period is not scaled yet and the collector is as supplied. *)
Definition defaulted (o : Options) : Options :=
  mkOptions (AccessToken o) (Collector o) (Map (mapOf (Tags o)))
    (LightStepAPI o)
    (orDefault DefaultMaxSpans (MaxBufferedSpans o))
    (orDefault DefaultMaxLogKeyLen (MaxLogKeyLen o))
    (orDefault DefaultMaxLogValueLen (MaxLogValueLen o))
    (orDefault DefaultMaxLogsPerSpan (MaxLogsPerSpan o))
    (orDefault DefaultGRPCMaxCallSendMsgSizeBytes (GRPCMaxCallSendMsgSizeBytes o))
    (orDefault DefaultMaxReportingPeriod (ReportingPeriod o))
    (orDefault DefaultMinReportingPeriod (MinReportingPeriod o))
    (orDefault DefaultReportTimeout (ReportTimeout o))
    (DropSpanLogs o) (Verbose o) (UseThrift o) (UseHttp o) (UseGRPC o)
    (orDefault DefaultReconnectPeriod (ReconnectPeriod o))
    (Recorder o) (ConnFactory o).

(** A process started with an empty argument list. *)
Definition noArgsEnv : Env := mkEnv [] "build-host" (1 # 2) false amd64OutOfRange.
(** ** Running [Initialize]: one statement at a time *)

Section Statements.
Variables (t : Stmt) (o : Options).

Lemma seq_assign f : (assign f ;; t)%stmt o = t (f o).
Proof. reflexivity. Qed.

Lemma seq_If_true c s : c o = true -> (If c s ;; t)%stmt o = (s ;; t)%stmt o.
Proof. unfold seq, If. now intros ->. Qed.

Lemma seq_If_IfElse_assign c c' f g :
  (If c (IfElse c' (assign f) (assign g)) ;; t)%stmt o
  = t (if c o then if c' o then f o else g o else o).
Proof. unfold seq, If, IfElse, assign, skip. now destruct (c o), (c' o). Qed.

Lemma seq_If_false c s : c o = false -> (If c s ;; t)%stmt o = t o.
Proof. unfold seq, If, skip. now intros ->. Qed.

Lemma seq_If_ret c e :
  c o = true -> (If c (ret e) ;; t)%stmt o = (o, Some (Return e)).
Proof. unfold seq, If, ret. now intros ->. Qed.

Lemma seq_If_panic c msg :
  c o = true -> (If c (panic msg) ;; t)%stmt o = (o, Some (Panic msg)).
Proof. unfold seq, If, panic. now intros ->. Qed.

(** [if opts.F == 0 { opts.F = d }] for a field [F] read by [get] and
  written by [set]. *)
Lemma seq_If_zero (get : Options -> Z) (set : Z -> Options -> Options) d :
  (forall x, set (get x) x = x) ->
  (If (fun opts => get opts =? 0) (assign (set d)) ;; t)%stmt o
  = t (set (if get o =? 0 then d else get o) o).
Proof.
  intros Hid. unfold seq, If, assign, skip.
  destruct (get o =? 0); [reflexivity | now rewrite Hid].
Qed.

End Statements.

Lemma emptyToken_iff o : emptyToken o = true <-> AccessToken o = "".
Proof.
  unfold emptyToken. rewrite Z.eqb_eq.
  destruct (AccessToken o); simpl; split; intros H;
    try reflexivity; try discriminate; lia.
Qed.

Section TagSteps.
Variables (t : Stmt) (o : Options) (m : gmap string any).
Hypothesis Hm : Tags o = Map m.

(** [if _, found := opts.Tags[k]; !found { opts.Tags[k] = v }] *)
Lemma seq_If_set_Tag k v :
  (If (fun opts => negb (found k (Tags opts))) (set_Tag k v) ;; t)%stmt o
  = t (set_Tags (Map (addDefault k v m)) o).
Proof.
  unfold seq, If, skip, set_Tag, assign, addDefault. rewrite Hm. simpl.
  destruct (m !! k); simpl; [|reflexivity].
  f_equal. rewrite <- Hm. now destruct o.
Qed.

End TagSteps.

Ltac options_cbn :=
  cbn [AccessToken Collector Tags LightStepAPI MaxBufferedSpans MaxLogKeyLen
       MaxLogValueLen MaxLogsPerSpan GRPCMaxCallSendMsgSizeBytes
       ReportingPeriod MinReportingPeriod ReportTimeout DropSpanLogs Verbose
       UseThrift UseHttp UseGRPC ReconnectPeriod Recorder ConnFactory
       Host Port Plaintext
       set_Host set_Port set_Collector set_Tags set_MaxBufferedSpans
       set_MaxLogKeyLen set_MaxLogValueLen set_MaxLogsPerSpan
       set_GRPCMaxCallSendMsgSizeBytes set_ReportingPeriod
       set_MinReportingPeriod set_ReportTimeout set_ReconnectPeriod].

Ltac zero_step get set :=
  rewrite (seq_If_zero _ _ get set); [options_cbn | now intros []].

Lemma addDefault_found k v m :
  found k (Map m) = true -> addDefault k v m = m.
Proof. unfold found, addDefault. now destruct (m !! k). Qed.

Ltac tag_step := erewrite seq_If_set_Tag by reflexivity; options_cbn.

(** Past the two checks, and unless [os.Args] is missing where it is
    needed, [Initialize] returns [nil] and leaves [initialized env o]. *)
Lemma Initialize_valid env o :
  emptyToken o = false -> hasGUID o = false -> needsArgs0 env o = false ->
  Initialize env o = (initialized env o, Some (Return None)).
Proof.
  intros Htok Hguid Hargs. unfold Initialize.
  rewrite seq_If_false by exact Htok.
  rewrite seq_If_false by exact Hguid.
  destruct o as [tok [host port plain] tags api mbs mlk mlv mls grpc rp mrp rt
                 dsl vb thrift http ugrpc rcp rec cf].
  destruct env as [args hostname r fused oor].
  unfold needsArgs0 in Hargs. clear Htok Hguid. cbn [Tags Args] in Hargs.
  zero_step MaxBufferedSpans set_MaxBufferedSpans.
  zero_step MaxLogKeyLen set_MaxLogKeyLen.
  zero_step MaxLogValueLen set_MaxLogValueLen.
  zero_step MaxLogsPerSpan set_MaxLogsPerSpan.
  zero_step GRPCMaxCallSendMsgSizeBytes set_GRPCMaxCallSendMsgSizeBytes.
  zero_step ReportingPeriod set_ReportingPeriod.
  zero_step MinReportingPeriod set_MinReportingPeriod.
  zero_step ReportTimeout set_ReportTimeout.
  zero_step ReconnectPeriod set_ReconnectPeriod.
  assert (Hcomp : exists m, mapOf tags = m /\
            (args = [] -> found ComponentNameKey (Map m) = true)).
  { exists (mapOf tags). split; [reflexivity|]. intros ->.
    destruct tags; cbn in Hargs |- *; [discriminate|].
    destruct (m !! ComponentNameKey); [reflexivity | discriminate]. }
  destruct Hcomp as (m & Hm & Hcomp).
  match goal with |- seq (If ?c ?s) ?t ?st = _ =>
    assert (Hnil : seq (If c s) t st = t (set_Tags (Map m) st))
      by (subst m; destruct tags; reflexivity);
    rewrite Hnil; clear Hnil
  end.
  options_cbn. unfold initialized, initializedTags. options_cbn.
  cbn [Args Hostname Float64 FusedMultiplyAdd Int64OutOfRange]. rewrite Hm. clear Hm Hargs tags.
  destruct args as [|arg0 args].
  - rewrite seq_If_false by (cbn [Tags]; now rewrite Hcomp).
    rewrite (addDefault_found ComponentNameKey) by auto.
    do 2 tag_step. rewrite seq_assign. options_cbn.
    rewrite !seq_If_IfElse_assign. options_cbn.
    unfold ret, initializedCollector, orDefault. options_cbn.
    destruct (String.eqb host ""), thrift; options_cbn;
      now destruct (port <=? 0), plain.
  - clear Hcomp. unfold with_Args0. cbn [Args hd].
    do 3 tag_step. rewrite seq_assign. options_cbn.
    rewrite !seq_If_IfElse_assign. options_cbn.
    unfold ret, initializedCollector, orDefault. options_cbn.
    destruct (String.eqb host ""), thrift; options_cbn;
      now destruct (port <=? 0), plain.
Qed.

Lemma Initialize_emptyToken env o :
  emptyToken o = true ->
  Initialize env o = (o, Some (Return (Some errAccessToken))).
Proof. intros H. unfold Initialize. now rewrite seq_If_ret. Qed.

Lemma Initialize_hasGUID env o :
  emptyToken o = false -> hasGUID o = true ->
  Initialize env o = (o, Some (Return (Some errGUID))).
Proof.
  intros Htok Hguid. unfold Initialize.
  rewrite seq_If_false by exact Htok. now rewrite seq_If_ret.
Qed.

Lemma Initialize_panics env o :
  emptyToken o = false -> hasGUID o = false -> needsArgs0 env o = true ->
  exists o', Initialize env o
             = (o', Some (Panic "index out of range [0] with length 0")).
Proof.
  intros Htok Hguid Hargs. unfold Initialize.
  rewrite seq_If_false by exact Htok.
  rewrite seq_If_false by exact Hguid.
  destruct o as [tok [host port plain] tags api mbs mlk mlv mls grpc rp mrp rt
                 dsl vb thrift http ugrpc rcp rec cf].
  unfold needsArgs0 in Hargs. clear Htok Hguid. cbn [Tags] in Hargs.
  apply andb_true_iff in Hargs as [Hcomp Hargs].
  unfold with_Args0. destruct (Args env); [clear Hargs | discriminate].
  zero_step MaxBufferedSpans set_MaxBufferedSpans.
  zero_step MaxLogKeyLen set_MaxLogKeyLen.
  zero_step MaxLogValueLen set_MaxLogValueLen.
  zero_step MaxLogsPerSpan set_MaxLogsPerSpan.
  zero_step GRPCMaxCallSendMsgSizeBytes set_GRPCMaxCallSendMsgSizeBytes.
  zero_step ReportingPeriod set_ReportingPeriod.
  zero_step MinReportingPeriod set_MinReportingPeriod.
  zero_step ReportTimeout set_ReportTimeout.
  zero_step ReconnectPeriod set_ReconnectPeriod.
  destruct tags as [|m].
  - rewrite seq_If_true, seq_assign by reflexivity. options_cbn.
    rewrite seq_If_panic by reflexivity. eauto.
  - rewrite seq_If_false by reflexivity.
    rewrite seq_If_panic by exact Hcomp. eauto.
Qed.

Lemma Initialize_cases env o : Initialize_outcome env o (Initialize env o).
Proof.
  destruct (emptyToken o) eqn:Htok.
  { rewrite Initialize_emptyToken by exact Htok. now constructor. }
  destruct (hasGUID o) eqn:Hguid.
  { rewrite Initialize_hasGUID by assumption. now constructor. }
  destruct (needsArgs0 env o) eqn:Hargs.
  - destruct (Initialize_panics env o Htok Hguid Hargs) as [o' ->].
    now constructor.
  - rewrite Initialize_valid by assumption. now constructor.
Qed.

Lemma Initialize_success env o o' :
  Initialize env o = (o', Some (Return None)) ->
  emptyToken o = false /\ hasGUID o = false /\ needsArgs0 env o = false /\
  o' = initialized env o.
Proof.
  intros H. destruct (Initialize_cases env o) as [?|? ?|? ? ? ? ?|? ? ?];
    inversion H; auto.
Qed.

Lemma Initialize_failure env o o' e :
  Initialize env o = (o', Some (Return (Some e))) ->
  o' = o /\
  (emptyToken o = true /\ e = errAccessToken \/
   emptyToken o = false /\ hasGUID o = true /\ e = errGUID).
Proof.
  intros H. destruct (Initialize_cases env o) as [?|? ?|? ? ? ? ?|? ? ?];
    inversion H; subst; split; auto.
Qed.

(** ** float64: rounding is monotone and exact on short binary fractions *)

Section Float64Facts.
Import float64.
Local Open Scope Q_scope.

Lemma pow2_pos e : 0 < pow2 e.
Proof. apply Qpower_0_lt. reflexivity. Qed.

Lemma pow2_add a b : pow2 (a + b) == pow2 a * pow2 b.
Proof. apply Qpower_plus. discriminate. Qed.

Lemma pow2_le a b : (a <= b)%Z -> pow2 a <= pow2 b.
Proof. intros H. apply Qpower_le_compat_l; [exact H | discriminate]. Qed.

Lemma pow2_lt_inv a b : pow2 a < pow2 b -> (a < b)%Z.
Proof. intros H. apply (Qpower_lt_compat_l_inv 2); [exact H | reflexivity]. Qed.

Lemma pow2_Z e : (0 <= e)%Z -> pow2 e == inject_Z (2 ^ e).
Proof. intros H. symmetry. apply (Zpower_Qpower 2 e H). Qed.

(** *** Nearest integer *)

Lemma half_even_floor q :
  half_even q = Qfloor q \/ half_even q = (Qfloor q + 1)%Z.
Proof.
  unfold half_even.
  destruct (Qcompare _ _); [destruct (Z.even _) | |]; auto.
Qed.

Lemma half_even_ge k q : inject_Z k <= q -> (k <= half_even q)%Z.
Proof.
  intros H. apply Qfloor_resp_le in H. rewrite Qfloor_Z in H.
  destruct (half_even_floor q) as [-> | ->]; lia.
Qed.

Lemma half_even_le k q : q <= inject_Z k -> (half_even q <= k)%Z.
Proof.
  intros H. pose proof (Qfloor_resp_le _ _ H) as Hf. rewrite Qfloor_Z in Hf.
  destruct (Z.eq_dec (Qfloor q) k) as [Heq | Hne].
  - unfold half_even. rewrite Heq.
    pose proof (Qfloor_le q) as Hq. rewrite Heq in Hq.
    destruct (Qcompare_spec (q - inject_Z k) (1 # 2)); [lra | lia | lra].
  - destruct (half_even_floor q) as [-> | ->]; lia.
Qed.

Lemma half_even_Z k q : q == inject_Z k -> half_even q = k.
Proof.
  intros H. apply Z.le_antisymm.
  - apply half_even_le. rewrite H. apply Qle_refl.
  - apply half_even_ge. rewrite H. apply Qle_refl.
Qed.

Lemma half_even_mono x y : x <= y -> (half_even x <= half_even y)%Z.
Proof.
  intros H. pose proof (Qfloor_resp_le _ _ H) as Hf.
  destruct (Z.eq_dec (Qfloor x) (Qfloor y)) as [Heq | Hne].
  - unfold half_even. rewrite <- Heq.
    destruct (Qcompare_spec (x - inject_Z (Qfloor x)) (1 # 2)) as [Hx|Hx|Hx];
      destruct (Qcompare_spec (y - inject_Z (Qfloor x)) (1 # 2)) as [Hy|Hy|Hy];
      try destruct (Z.even (Qfloor x)); try lia; lra.
  - pose proof (half_even_floor x). pose proof (half_even_floor y). lia.
Qed.

(** *** The binary exponent *)

Lemma Qinv_swap_le a b : 0 < a -> 0 < b -> / a <= b -> / b <= a.
Proof.
  intros Ha Hb H. apply Qle_shift_inv_r; [exact Hb|].
  apply (Qmult_le_compat_r _ _ a) in H; [|lra].
  rewrite (Qmult_comm (/ a)), Qmult_inv_r in H by lra. lra.
Qed.

Lemma Qinv_swap_lt a b : 0 < a -> 0 < b -> a < / b -> b < / a.
Proof.
  intros Ha Hb H. apply Qlt_shift_inv_l; [exact Ha|].
  apply (Qmult_lt_compat_r _ _ b) in H; [|lra].
  rewrite (Qmult_comm (/ b)), Qmult_inv_r in H by lra. lra.
Qed.

Lemma ilog2_spec q :
  0 < q -> pow2 (ilog2 q) <= q /\ q < pow2 (ilog2 q + 1).
Proof.
  intros Hq. unfold ilog2. destruct (Qle_bool 1 q) eqn:H1.
  - apply Qle_bool_iff in H1.
    assert (Hf : (1 <= Qfloor q)%Z) by exact (Qfloor_resp_le 1 q H1).
    destruct (Z.log2_spec (Qfloor q)) as [Hlo Hhi]; [lia|].
    pose proof (Z.log2_nonneg (Qfloor q)) as Hnn.
    rewrite !pow2_Z by lia. split.
    + apply Qle_trans with (inject_Z (Qfloor q)); [|apply Qfloor_le].
      now rewrite <- Zle_Qle.
    + apply Qlt_le_trans with (inject_Z (Qfloor q + 1)); [apply Qlt_floor|].
      rewrite <- Zle_Qle. unfold Z.succ in Hhi. lia.
  - assert (Hlt : q < 1).
    { apply Qnot_le_lt. intros H. apply Qle_bool_iff in H. congruence. }
    assert (Hinv : 1 < / q).
    { apply Qlt_shift_inv_l; [exact Hq | lra]. }
    pose proof (Qle_ceiling (/ q)) as Hc.
    pose proof (Qceiling_lt (/ q)) as Hc'.
    assert (Hc1 : (1 < Qceiling (/ q))%Z).
    { rewrite Zlt_Qlt. exact (Qlt_le_trans 1 (/ q) _ Hinv Hc). }
    destruct (Z.log2_up_spec (Qceiling (/ q)) Hc1) as [Hlo Hhi].
    pose proof (Z.log2_up_pos (Qceiling (/ q)) Hc1) as Hk.
    set (k := Z.log2_up (Qceiling (/ q))) in *.
    replace (- k + 1)%Z with (- Z.pred k)%Z by lia.
    unfold pow2. rewrite !Qpower_opp. fold (pow2 k) (pow2 (Z.pred k)). split.
    + apply Qinv_swap_le; [exact Hq | apply pow2_pos |].
      rewrite pow2_Z by lia.
      apply Qle_trans with (inject_Z (Qceiling (/ q))); [exact Hc|].
      now rewrite <- Zle_Qle.
    + apply Qinv_swap_lt; [apply pow2_pos | exact Hq |].
      rewrite pow2_Z by lia.
      apply Qle_lt_trans with (inject_Z (Qceiling (/ q) - 1)); [|exact Hc'].
      rewrite <- Zle_Qle. lia.
Qed.

Lemma ilog2_mono x y : 0 < x -> x <= y -> (ilog2 x <= ilog2 y)%Z.
Proof.
  intros Hx Hxy.
  destruct (ilog2_spec x Hx) as [Hlo _].
  destruct (ilog2_spec y) as [_ Hhi]; [lra|].
  assert (ilog2 x < ilog2 y + 1)%Z by (apply pow2_lt_inv; lra). lia.
Qed.

(** *** Rounding a positive number *)

Lemma expo_mono x y : 0 < x -> x <= y -> (expo x <= expo y)%Z.
Proof.
  intros Hx Hxy. unfold expo. pose proof (ilog2_mono x y Hx Hxy). lia.
Qed.

Lemma pow2_merge a b c : (a + b = c)%Z -> pow2 a * pow2 b == pow2 c.
Proof. intros <-. symmetry. apply pow2_add. Qed.

Lemma scaled_lt q : 0 < q -> q * pow2 (52 - expo q) < pow2 53.
Proof.
  intros Hq. destruct (ilog2_spec q Hq) as [_ Hhi].
  assert (He : pow2 (ilog2 q + 1) <= pow2 (expo q + 1))
    by (apply pow2_le; unfold expo; lia).
  rewrite <- (pow2_merge (expo q + 1) (52 - expo q) 53) by lia.
  apply Qmult_lt_compat_r; [apply pow2_pos | lra].
Qed.

Lemma scaled_ge q :
  0 < q -> (emin <= ilog2 q)%Z -> pow2 52 <= q * pow2 (52 - expo q).
Proof.
  intros Hq He. destruct (ilog2_spec q Hq) as [Hlo _].
  replace (expo q) with (ilog2 q) by (unfold expo; lia).
  rewrite <- (pow2_merge (ilog2 q) (52 - ilog2 q) 52) by lia.
  apply Qmult_le_compat_r; [exact Hlo | apply Qlt_le_weak, pow2_pos].
Qed.

Lemma round_pos_unfold q :
  round_pos q
  = inject_Z (half_even (q * pow2 (52 - expo q))) * pow2 (expo q - 52).
Proof. reflexivity. Qed.

Lemma round_pos_nonneg q : 0 < q -> 0 <= round_pos q.
Proof.
  intros Hq. rewrite round_pos_unfold.
  apply Qmult_le_0_compat; [|apply Qlt_le_weak, pow2_pos].
  change 0 with (inject_Z 0). rewrite <- Zle_Qle. apply half_even_ge.
  apply Qmult_le_0_compat; [lra | apply Qlt_le_weak, pow2_pos].
Qed.

Lemma round_pos_le_pow2 q : 0 < q -> round_pos q <= pow2 (expo q + 1).
Proof.
  intros Hq. rewrite round_pos_unfold.
  rewrite <- (pow2_merge 53 (expo q - 52) (expo q + 1)) by lia.
  apply Qmult_le_compat_r; [|apply Qlt_le_weak, pow2_pos].
  rewrite (pow2_Z 53) by lia. rewrite <- Zle_Qle. apply half_even_le.
  rewrite <- pow2_Z by lia. apply Qlt_le_weak, scaled_lt, Hq.
Qed.

Lemma round_pos_ge_pow2 q :
  0 < q -> (emin <= ilog2 q)%Z -> pow2 (expo q) <= round_pos q.
Proof.
  intros Hq He. rewrite round_pos_unfold.
  rewrite <- (pow2_merge 52 (expo q - 52) (expo q)) at 1 by lia.
  apply Qmult_le_compat_r; [|apply Qlt_le_weak, pow2_pos].
  rewrite (pow2_Z 52) by lia. rewrite <- Zle_Qle. apply half_even_ge.
  rewrite <- pow2_Z by lia. now apply scaled_ge.
Qed.

Lemma round_pos_mono x y : 0 < x -> x <= y -> round_pos x <= round_pos y.
Proof.
  intros Hx Hxy. assert (Hy : 0 < y) by lra.
  pose proof (expo_mono x y Hx Hxy) as He.
  destruct (Z.eq_dec (expo x) (expo y)) as [Heq | Hne].
  - rewrite !round_pos_unfold, Heq.
    apply Qmult_le_compat_r; [|apply Qlt_le_weak, pow2_pos].
    rewrite <- Zle_Qle. apply half_even_mono.
    apply Qmult_le_compat_r; [exact Hxy | apply Qlt_le_weak, pow2_pos].
  - apply Qle_trans with (pow2 (expo x + 1)); [now apply round_pos_le_pow2|].
    apply Qle_trans with (pow2 (expo y)); [apply pow2_le; lia|].
    apply round_pos_ge_pow2; [exact Hy|].
    unfold expo in *. lia.
Qed.

(** A positive number with fewer than 53 significant bits and no bit below
    [2^-1074] is its own rounding. *)
Lemma round_pos_exact q n j :
  (0 < n < 2 ^ 53)%Z -> (j <= 1074)%Z ->
  q == inject_Z n * pow2 (- j) -> round_pos q == q.
Proof.
  intros Hn Hj Hq.
  assert (Hpos : 0 < q).
  { rewrite Hq. apply Qmult_lt_0_compat; [|apply pow2_pos].
    change 0 with (inject_Z 0). rewrite <- Zlt_Qlt. lia. }
  assert (He : (expo q <= 52 - j)%Z).
  { destruct (ilog2_spec q Hpos) as [Hlo _].
    assert (Hlt : q < pow2 (53 - j)).
    { rewrite Hq, <- (pow2_merge 53 (- j) (53 - j)) by lia.
      apply Qmult_lt_compat_r; [apply pow2_pos|].
      rewrite (pow2_Z 53) by lia. rewrite <- Zlt_Qlt. lia. }
    assert (ilog2 q < 53 - j)%Z by (apply pow2_lt_inv; lra).
    unfold expo, emin. lia. }
  set (d := (52 - expo q - j)%Z).
  assert (Hs : q * pow2 (52 - expo q) == inject_Z (n * 2 ^ d)).
  { rewrite inject_Z_mult, <- pow2_Z by (unfold d; lia).
    transitivity (inject_Z n * pow2 (- j) * pow2 (52 - expo q)).
    - apply Qmult_comp; [exact Hq | reflexivity].
    - rewrite <- Qmult_assoc.
      now rewrite (pow2_merge (- j) (52 - expo q) d) by (unfold d; lia). }
  rewrite round_pos_unfold, (half_even_Z _ _ Hs).
  rewrite inject_Z_mult, <- pow2_Z by (unfold d; lia).
  rewrite <- Qmult_assoc.
  rewrite (pow2_merge d (expo q - 52) (- j)) by (unfold d; lia).
  symmetry. exact Hq.
Qed.

(** *** Rounding *)

Lemma round_zero q : q == 0 -> round q = 0.
Proof.
  intros H. unfold round.
  destruct (Qcompare_spec q 0) as [_|Hlt|Hgt]; [reflexivity | lra | lra].
Qed.

Lemma round_of_pos q : 0 < q -> round q == round_pos q.
Proof.
  intros H. unfold round.
  destruct (Qcompare_spec q 0) as [H0|Hlt|_]; [lra | lra | apply Qred_correct].
Qed.

Lemma round_of_neg q : q < 0 -> round q == - round_pos (- q).
Proof.
  intros H. unfold round.
  destruct (Qcompare_spec q 0) as [H0|_|Hgt]; [lra | apply Qred_correct | lra].
Qed.

Lemma round_mono x y : x <= y -> round x <= round y.
Proof.
  intros Hxy.
  destruct (Qlt_le_dec 0 x) as [Hx | Hx].
  - rewrite (round_of_pos x), (round_of_pos y) by lra.
    now apply round_pos_mono.
  - destruct (Qlt_le_dec x 0) as [Hx' | Hx'].
    + rewrite (round_of_neg x Hx').
      pose proof (round_pos_nonneg (- x)) as Hnx.
      destruct (Qlt_le_dec 0 y) as [Hy | Hy].
      * rewrite (round_of_pos y Hy).
        pose proof (round_pos_nonneg y Hy). lra.
      * destruct (Qlt_le_dec y 0) as [Hy' | Hy'].
        -- rewrite (round_of_neg y Hy').
           pose proof (round_pos_mono (- y) (- x)). lra.
        -- rewrite (round_zero y) by lra. lra.
    + rewrite (round_zero x) by lra.
      destruct (Qlt_le_dec 0 y) as [Hy | Hy].
      * rewrite (round_of_pos y Hy). now apply round_pos_nonneg.
      * rewrite (round_zero y) by lra. lra.
Qed.

Lemma round_comp x y : x == y -> round x == round y.
Proof.
  intros H. apply Qle_antisym; apply round_mono; rewrite H; apply Qle_refl.
Qed.

(** Numbers of fewer than 53 significant bits, such as integers below
    [2^53] in magnitude and their eighths, are their own rounding. *)
Lemma round_exact q n j :
  (- 2 ^ 53 < n < 2 ^ 53)%Z -> (j <= 1074)%Z ->
  q == inject_Z n * pow2 (- j) -> round q == q.
Proof.
  intros Hn Hj Hq.
  destruct (Z.lt_trichotomy n 0) as [Hneg | [-> | Hpos]].
  - assert (Hlt : q < 0).
    { assert (H1 : inject_Z n * pow2 (- j) < 0 * pow2 (- j)).
      { apply Qmult_lt_compat_r; [apply pow2_pos|].
        change 0 with (inject_Z 0). rewrite <- Zlt_Qlt. exact Hneg. }
      rewrite Hq. lra. }
    rewrite (round_of_neg q Hlt).
    rewrite (round_pos_exact (- q) (- n) j); [ring | lia | lia |].
    rewrite Hq, inject_Z_opp. ring.
  - rewrite round_zero; rewrite Hq; change (inject_Z 0) with 0; ring.
  - assert (Hgt : 0 < q).
    { rewrite Hq. apply Qmult_lt_0_compat; [|apply pow2_pos].
      change 0 with (inject_Z 0). rewrite <- Zlt_Qlt. exact Hpos. }
    rewrite (round_of_pos q Hgt).
    apply (round_pos_exact q n j); [lia | lia | exact Hq].
Qed.

Lemma round_int n :
  (- 2 ^ 53 < n < 2 ^ 53)%Z -> round (inject_Z n) == inject_Z n.
Proof.
  intros Hn. apply (round_exact _ n 0); [exact Hn | lia |].
  change (pow2 (- 0)) with 1. ring.
Qed.

(** *** Conversion to an integer *)

Lemma trunc_nonneg x : 0 <= x -> trunc x = Qfloor x.
Proof.
  intros H. unfold trunc, Qfloor. destruct x as [n d]. cbn.
  apply Z.quot_div_nonneg; [|lia].
  unfold Qle in H. cbn in H. lia.
Qed.

Lemma trunc_nonpos x : x <= 0 -> trunc x = Qceiling x.
Proof.
  intros H. unfold trunc, Qceiling, Qfloor. destruct x as [n d]. cbn.
  unfold Qle in H. cbn in H.
  rewrite <- (Z.opp_involutive n) at 1. rewrite Z.quot_opp_l by lia.
  f_equal. apply Z.quot_div_nonneg; lia.
Qed.

Lemma trunc_ge k x : inject_Z k <= x -> (0 <= k)%Z -> (k <= trunc x)%Z.
Proof.
  intros H Hk.
  assert (H0 : 0 <= x).
  { apply Qle_trans with (inject_Z k); [|exact H].
    change 0 with (inject_Z 0). now rewrite <- Zle_Qle. }
  rewrite trunc_nonneg by exact H0.
  apply Qfloor_resp_le in H. now rewrite Qfloor_Z in H.
Qed.

Lemma trunc_lt k x : 0 <= x -> x < inject_Z (k + 1) -> (trunc x <= k)%Z.
Proof.
  intros H0 H. rewrite trunc_nonneg by exact H0.
  pose proof (Qfloor_le x) as Hf.
  assert (Hlt : inject_Z (Qfloor x) < inject_Z (k + 1)) by lra.
  rewrite <- Zlt_Qlt in Hlt. lia.
Qed.

Lemma round_opp x : round (- x) == - round x.
Proof.
  destruct (Qlt_le_dec 0 x) as [Hx | Hx].
  - rewrite (round_of_neg (- x)), (round_of_pos x) by lra.
    rewrite <- (round_of_pos (- - x)), <- (round_of_pos x) by lra.
    apply Qopp_comp, round_comp. ring.
  - destruct (Qlt_le_dec x 0) as [Hx' | Hx'].
    + rewrite (round_of_pos (- x)), (round_of_neg x) by lra. ring.
    + rewrite (round_zero x), (round_zero (- x)) by lra. reflexivity.
Qed.

Lemma trunc_opp x : trunc (- x) = (- trunc x)%Z.
Proof. unfold trunc. destruct x as [n d]. cbn. apply Z.quot_opp_l. lia. Qed.

Lemma trunc_comp x y : x == y -> trunc x = trunc y.
Proof.
  intros H. destruct (Qlt_le_dec x 0) as [Hx | Hx].
  - rewrite !trunc_nonpos by lra. now apply Qceiling_comp.
  - rewrite !trunc_nonneg by lra. now apply Qfloor_comp.
Qed.

(** ** The scaling of the reconnect period *)

Section Scaling.
Variable fused : bool.

Lemma scale_unfold r d :
  scale fused r d = trunc (round (round (inject_Z d) * factor fused r)).
Proof. reflexivity. Qed.

Lemma factor_ge_1 r : 0 <= r -> 1 <= factor fused r.
Proof.
  intros Hr. unfold factor, float64.fma, float64.add, float64.mul.
  assert (H1 : float64.const 1 = 1) by (vm_compute; reflexivity).
  assert (Hc : 0 <= float64.const (2 # 10)) by (vm_compute; discriminate).
  rewrite H1. set (c := float64.const (2 # 10)) in *.
  destruct fused.
  { rewrite <- H1 at 1. unfold float64.const. apply round_mono.
    assert (0 <= c * r) by now apply Qmult_le_0_compat. lra. }
  assert (Ht : 0 <= round (c * r)).
  { rewrite <- (round_zero 0) by reflexivity. apply round_mono.
    now apply Qmult_le_0_compat. }
  rewrite <- H1 at 1. unfold float64.const. apply round_mono. lra.
Qed.

Lemma factor_le_max r : 0 <= r -> r < 1 -> factor fused r <= maxFactor.
Proof.
  intros Hr Hr1. unfold factor, float64.fma, float64.add, float64.mul.
  assert (H1 : float64.const 1 = 1) by (vm_compute; reflexivity).
  assert (Hc : 0 <= float64.const (2 # 10)) by (vm_compute; discriminate).
  assert (Hcc : round (float64.const (2 # 10)) = float64.const (2 # 10))
    by (vm_compute; reflexivity).
  assert (Hm : round (1 + float64.const (2 # 10)) = maxFactor)
    by (vm_compute; reflexivity).
  rewrite H1, <- Hm. set (c := float64.const (2 # 10)) in *.
  destruct fused.
  { apply round_mono. clearbody c. nra. }
  apply round_mono. apply Qplus_le_r.
  apply Qle_trans with (round c); [|rewrite Hcc; apply Qle_refl].
  apply round_mono. clearbody c. nra.
Qed.

Lemma Qmult_ge_l a m : 0 <= a -> 1 <= m -> a <= a * m.
Proof. intros Ha Hm. nra. Qed.

Lemma Qmult_le_scale a m n : 0 <= a -> m <= n -> a * m <= a * n.
Proof. intros Ha Hm. nra. Qed.

Lemma scale_opp r (d : Z) : scale fused r (- d)%Z = (- scale fused r d)%Z.
Proof.
  rewrite !scale_unfold, <- trunc_opp. apply trunc_comp.
  rewrite <- round_opp. apply round_comp.
  rewrite inject_Z_opp, round_opp. ring.
Qed.

(** A positive period stays positive, whatever its size. *)
Lemma scale_pos r d : 0 <= r -> (0 < d)%Z -> (0 < scale fused r d)%Z.
Proof.
  intros Hr Hd. rewrite scale_unfold.
  pose proof (factor_ge_1 r Hr) as Hm.
  assert (H1 : round (inject_Z 1) == 1) by (apply (round_int 1); lia).
  assert (HD : 1 <= round (inject_Z d)).
  { rewrite <- H1. apply round_mono. rewrite <- Zle_Qle. lia. }
  assert (Hx : 1 <= round (round (inject_Z d) * factor fused r)).
  { rewrite <- H1. apply round_mono. change (inject_Z 1) with 1.
    apply Qle_trans with (round (inject_Z d)); [exact HD|].
    apply Qmult_ge_l; [lra | exact Hm]. }
  enough (1 <= trunc (round (round (inject_Z d) * factor fused r)))%Z by lia.
  apply trunc_ge; [exact Hx | lia].
Qed.

Lemma scale_neg r d : 0 <= r -> (d < 0)%Z -> (scale fused r d < 0)%Z.
Proof.
  intros Hr Hd. pose proof (scale_pos r (- d)%Z Hr) as H.
  rewrite scale_opp in H. lia.
Qed.

(** A positive period below [2^53] nanoseconds, which float64 holds
    exactly, never shrinks. *)
Lemma scale_lower_pos r d :
  0 <= r -> (0 < d < 2 ^ 53)%Z -> (d <= scale fused r d)%Z.
Proof.
  intros Hr Hd. rewrite scale_unfold.
  pose proof (factor_ge_1 r Hr) as Hm1.
  assert (HD : round (inject_Z d) == inject_Z d) by (apply round_int; lia).
  assert (Hd0 : 0 < inject_Z d).
  { change 0 with (inject_Z 0). rewrite <- Zlt_Qlt. lia. }
  apply trunc_ge; [|lia].
  rewrite <- HD at 1. apply round_mono.
  rewrite HD. apply Qmult_ge_l; [lra | exact Hm1].
Qed.

Lemma scale_upper_neg r d :
  0 <= r -> (- 2 ^ 53 < d < 0)%Z -> (scale fused r d <= d)%Z.
Proof.
  intros Hr Hd. pose proof (scale_lower_pos r (- d)%Z Hr) as H.
  rewrite scale_opp in H. lia.
Qed.

(** A positive period of at most [2^49] nanoseconds grows by at most a
    fifth. *)
Lemma scale_bounds_pos r d :
  0 <= r -> r < 1 -> (0 < d <= 2 ^ 49)%Z ->
  (d <= scale fused r d)%Z /\ (5 * scale fused r d <= 6 * d)%Z.
Proof.
  intros Hr Hr1 Hd. change (2 ^ 49)%Z with 562949953421312%Z in Hd.
  rewrite scale_unfold.
  pose proof (factor_ge_1 r Hr) as Hm1.
  pose proof (factor_le_max r Hr Hr1) as Hm2.
  assert (HD : round (inject_Z d) == inject_Z d).
  { apply round_int. change (2 ^ 53)%Z with 9007199254740992%Z. lia. }
  assert (Hd0 : 0 < inject_Z d).
  { change 0 with (inject_Z 0). rewrite <- Zlt_Qlt. lia. }
  set (x := round (inject_Z d) * factor fused r).
  assert (Hx1 : inject_Z d <= x).
  { unfold x. rewrite HD. apply Qmult_ge_l; [lra | exact Hm1]. }
  assert (Hmax : maxFactor <= 6 # 5) by (unfold Qle; cbn; lia).
  assert (Hx2 : x <= inject_Z d * (6 # 5)).
  { unfold x. rewrite HD. apply Qmult_le_scale; lra. }
  set (k := (6 * d / 5)%Z).
  assert (Hk : (5 * k <= 6 * d < 5 * k + 5)%Z).
  { unfold k. pose proof (Z.mul_div_le (6 * d) 5).
    pose proof (Z.mul_succ_div_gt (6 * d) 5). lia. }
  set (y := inject_Z (8 * k + 7) * pow2 (- 3)).
  assert (Hy : round y == y).
  { apply (round_exact y (8 * k + 7) 3); [|lia|reflexivity].
    change (2 ^ 53)%Z with 9007199254740992%Z. lia. }
  assert (Hy' : y == inject_Z k + (7 # 8)).
  { unfold y. change (pow2 (- 3)) with (1 # 8).
    rewrite inject_Z_plus, inject_Z_mult. change (inject_Z 8) with 8.
    change (inject_Z 7) with 7. field. }
  assert (Hxy : x <= y).
  { rewrite Hy'. apply Qle_trans with (inject_Z d * (6 # 5)); [exact Hx2|].
    assert (H6 : inject_Z (6 * d) <= inject_Z (5 * k + 4))
      by (rewrite <- Zle_Qle; lia).
    rewrite inject_Z_plus, !inject_Z_mult in H6.
    change (inject_Z 6) with 6 in H6. change (inject_Z 5) with 5 in H6.
    change (inject_Z 4) with 4 in H6. lra. }
  assert (Hlo : inject_Z d <= round x).
  { rewrite <- HD. now apply round_mono. }
  assert (Hhi : round x <= y).
  { rewrite <- Hy. now apply round_mono. }
  split.
  - apply trunc_ge; [exact Hlo | lia].
  - enough (trunc (round x) <= k)%Z by lia.
    apply trunc_lt; [lra|].
    rewrite inject_Z_plus. change (inject_Z 1) with 1. lra.
Qed.

(** A negative period of at least [-2^49] nanoseconds grows in magnitude by
    at most a fifth. *)
Lemma scale_bounds_neg r d :
  0 <= r -> r < 1 -> (- 2 ^ 49 <= d < 0)%Z ->
  (6 * d <= 5 * scale fused r d)%Z /\ (scale fused r d <= d)%Z.
Proof.
  intros Hr Hr1 Hd.
  destruct (scale_bounds_pos r (- d)%Z Hr Hr1) as [H1 H2]; [lia|].
  rewrite scale_opp in H1, H2. lia.
Qed.

(** *** Conversion to [int64] *)

Lemma scale_zero r : scale fused r 0 = 0%Z.
Proof.
  rewrite scale_unfold.
  assert (H0 : round (inject_Z 0) = 0) by reflexivity.
  rewrite H0, (round_zero (0 * factor fused r)) by ring. reflexivity.
Qed.

Lemma scale_le_pos r d :
  0 <= r -> r < 1 -> (0 < d <= 2 ^ 62)%Z -> (scale fused r d <= 3 * 2 ^ 61)%Z.
Proof.
  intros Hr Hr1 Hd. rewrite scale_unfold.
  pose proof (factor_ge_1 r Hr) as Hm1.
  pose proof (factor_le_max r Hr Hr1) as Hm2.
  assert (Hmax : maxFactor <= 3 # 2) by (unfold Qle; cbn; lia).
  assert (H62 : round (inject_Z (2 ^ 62)) == inject_Z (2 ^ 62)).
  { apply (round_exact _ 1 (- 62)); [lia | lia |].
    rewrite <- pow2_Z by lia. change (inject_Z 1) with 1.
    change (- - 62)%Z with 62%Z. ring. }
  assert (H361 : round (inject_Z (3 * 2 ^ 61)) == inject_Z (3 * 2 ^ 61)).
  { apply (round_exact _ 3 (- 61)); [lia | lia |].
    rewrite inject_Z_mult, <- pow2_Z by lia. reflexivity. }
  assert (HD0 : 0 <= round (inject_Z d)).
  { rewrite <- (round_zero 0) by reflexivity. apply round_mono.
    change 0 with (inject_Z 0). rewrite <- Zle_Qle. lia. }
  assert (HD : round (inject_Z d) <= inject_Z (2 ^ 62)).
  { rewrite <- H62. apply round_mono. rewrite <- Zle_Qle. lia. }
  set (x := round (inject_Z d) * factor fused r).
  assert (Hx0 : 0 <= x) by (apply Qmult_le_0_compat; lra).
  assert (Hx : x <= inject_Z (3 * 2 ^ 61)).
  { apply Qle_trans with (inject_Z (2 ^ 62) * (3 # 2)).
    - apply Qle_trans with (round (inject_Z d) * (3 # 2)).
      + apply Qmult_le_scale; lra.
      + apply Qmult_le_compat_r; [exact HD | discriminate].
    - apply Qle_lteq. right. vm_compute. reflexivity. }
  assert (Hrx0 : 0 <= round x).
  { rewrite <- (round_zero 0) by reflexivity. now apply round_mono. }
  assert (Hrx : round x <= inject_Z (3 * 2 ^ 61)).
  { rewrite <- H361. now apply round_mono. }
  apply trunc_lt; [exact Hrx0|].
  rewrite inject_Z_plus. change (inject_Z 1) with 1. lra.
Qed.

(** For a period of at most [2^62] nanoseconds in magnitude the product
    fits an [int64]. *)
Lemma scale_in_range r d :
  0 <= r -> r < 1 -> (- 2 ^ 62 <= d <= 2 ^ 62)%Z ->
  (minInt64 <= scale fused r d <= maxInt64)%Z.
Proof.
  intros Hr Hr1 Hd. unfold minInt64, maxInt64.
  destruct (Z.lt_trichotomy d 0) as [Hneg | [-> | Hpos]].
  - pose proof (scale_le_pos r (- d)%Z Hr Hr1) as H1.
    pose proof (scale_pos r (- d)%Z Hr) as H2.
    rewrite scale_opp in H1, H2. lia.
  - rewrite scale_zero. lia.
  - pose proof (scale_le_pos r d Hr Hr1) as H1.
    pose proof (scale_pos r d Hr) as H2. lia.
Qed.

End Scaling.

End Float64Facts.

(** ** The jitter of the reconnect period *)

Lemma jitter_scale env d :
  (0 <= Float64 env)%Q -> (Float64 env < 1)%Q -> - 2 ^ 62 <= d <= 2 ^ 62 ->
  jitter env d = scale (FusedMultiplyAdd env) (Float64 env) d.
Proof.
  intros Hr Hr1 Hd. unfold jitter, float64.to_int64.
  fold (scale (FusedMultiplyAdd env) (Float64 env) d).
  destruct (scale_in_range (FusedMultiplyAdd env) (Float64 env) d Hr Hr1 Hd)
    as [Hlo Hhi].
  apply Z.leb_le in Hlo, Hhi. now rewrite Hlo, Hhi.
Qed.

Lemma jitter_bounds_pos env d :
  (0 <= Float64 env)%Q -> (Float64 env < 1)%Q -> 0 < d <= 2 ^ 49 ->
  d <= jitter env d /\ 5 * jitter env d <= 6 * d.
Proof.
  intros Hr Hr1 Hd. rewrite jitter_scale by (try assumption; lia).
  now apply scale_bounds_pos.
Qed.

Lemma jitter_bounds_neg env d :
  (0 <= Float64 env)%Q -> (Float64 env < 1)%Q -> - 2 ^ 49 <= d < 0 ->
  6 * d <= 5 * jitter env d /\ jitter env d <= d.
Proof.
  intros Hr Hr1 Hd. rewrite jitter_scale by (try assumption; lia).
  now apply scale_bounds_neg.
Qed.

Lemma jitter_lower_pos env d :
  (0 <= Float64 env)%Q -> (Float64 env < 1)%Q -> 0 < d < 2 ^ 53 ->
  d <= jitter env d.
Proof.
  intros Hr Hr1 Hd. rewrite jitter_scale by (try assumption; lia).
  now apply scale_lower_pos.
Qed.

Lemma jitter_upper_neg env d :
  (0 <= Float64 env)%Q -> (Float64 env < 1)%Q -> - 2 ^ 53 < d < 0 ->
  jitter env d <= d.
Proof.
  intros Hr Hr1 Hd. rewrite jitter_scale by (try assumption; lia).
  now apply scale_upper_neg.
Qed.

Lemma jitter_pos env d :
  (0 <= Float64 env)%Q -> (Float64 env < 1)%Q -> 0 < d <= 2 ^ 62 ->
  0 < jitter env d.
Proof.
  intros Hr Hr1 Hd. rewrite jitter_scale by (try assumption; lia).
  apply scale_pos; [exact Hr | lia].
Qed.

Lemma jitter_neg env d :
  (0 <= Float64 env)%Q -> (Float64 env < 1)%Q -> - 2 ^ 62 <= d < 0 ->
  jitter env d < 0.
Proof.
  intros Hr Hr1 Hd. rewrite jitter_scale by (try assumption; lia).
  apply scale_neg; [exact Hr | lia].
Qed.

(** ** Facts about tags *)

Lemma addDefault_lookup k v (m : gmap string any) k' :
  addDefault k v m !! k'
  = match m !! k' with
    | Some x => Some x
    | None => if decide (k = k') then Some v else None
    end.
Proof.
  unfold addDefault. destruct (m !! k) as [x|] eqn:Hk.
  - destruct (m !! k') eqn:Hk'; [reflexivity|].
    case_decide; [congruence | reflexivity].
  - rewrite lookup_insert. case_decide; subst.
    + now rewrite Hk.
    + now destruct (m !! k').
Qed.

Lemma initializedTags_lookup env t k :
  initializedTags env t !! k
  = match mapOf t !! k with
    | Some x => Some x
    | None =>
        if decide (k = ComponentNameKey)
        then Some (AString (path_Base (hd "" (Args env))))
        else if decide (k = HostnameKey) then Some (AString (Hostname env))
        else if decide (k = CommandLineKey)
        then Some (AString (strings_Join (Args env) " "))
        else None
    end.
Proof.
  unfold initializedTags. rewrite !addDefault_lookup.
  destruct (mapOf t !! k); [reflexivity|].
  repeat case_decide; subst; try reflexivity; try congruence; discriminate.
Qed.

(** ** The report buffer and the engine *)

Section ReportingFacts.
Context {RawSpan : Type}.
Variable truncateLogs : RawSpan -> RawSpan * Z.
Variable cap : Z.

Lemma Append_below (b : reportBuffer) span :
  bufferLength b < cap ->
  bufferLength (fst (Append truncateLogs cap b span)) = bufferLength b + 1 /\
  droppedSpanCount (fst (Append truncateLogs cap b span))
  = droppedSpanCount b /\
  snd (Append truncateLogs cap b span) = Accepted.
Proof.
  unfold bufferLength. intros H. unfold Append.
  destruct (Z.ltb_spec (Z.of_nat (length (rawSpans b))) cap); [|lia]. cbn.
  rewrite length_app. cbn. repeat split; lia.
Qed.

Lemma Append_full (b : reportBuffer) span :
  cap <= bufferLength b ->
  Append truncateLogs cap b span
  = (mkBuffer (rawSpans b) (droppedSpanCount b + 1) (droppedLogCount b),
     Dropped).
Proof.
  unfold bufferLength. intros H. unfold Append.
  destruct (Z.ltb_spec (Z.of_nat (length (rawSpans b))) cap);
    [lia | reflexivity].
Qed.

Lemma appendAll_cons (b : reportBuffer) span spans :
  appendAll truncateLogs cap b (span :: spans)
  = appendAll truncateLogs cap (fst (Append truncateLogs cap b span)) spans.
Proof. reflexivity. Qed.

Lemma appendAll_full spans : forall b : reportBuffer,
  cap <= bufferLength b ->
  appendAll truncateLogs cap b spans
  = mkBuffer (rawSpans b) (droppedSpanCount b + Z.of_nat (length spans))
      (droppedLogCount b).
Proof.
  induction spans as [|span spans IH]; intros b Hb.
  - destruct b; cbn. f_equal. lia.
  - rewrite appendAll_cons, Append_full by exact Hb. cbn [fst].
    rewrite IH by exact Hb. cbn. f_equal. lia.
Qed.

Lemma appendAll_counts spans : forall b : reportBuffer,
  bufferLength b <= cap ->
  bufferLength (appendAll truncateLogs cap b spans)
  = Z.min cap (bufferLength b + Z.of_nat (length spans)) /\
  droppedSpanCount (appendAll truncateLogs cap b spans)
  = droppedSpanCount b + Z.max 0 (bufferLength b + Z.of_nat (length spans) - cap).
Proof.
  induction spans as [|span spans IH]; intros b Hb.
  - cbn. lia.
  - rewrite appendAll_cons.
    destruct (Z.lt_ge_cases (bufferLength b) cap) as [Hlt|Hge].
    + destruct (Append_below b span Hlt) as (Hs & Hd & _).
      destruct (IH (fst (Append truncateLogs cap b span))) as [IHs IHd];
        [lia|].
      rewrite IHs, IHd, Hs, Hd. cbn [length]. lia.
    + rewrite Append_full by exact Hge. cbn [fst].
      rewrite appendAll_full by exact Hge. unfold bufferLength in *.
      cbn [length rawSpans droppedSpanCount]. lia.
Qed.

Lemma step_Disabled (e : engine) ev :
  state e = Disabled -> step truncateLogs cap e ev = e.
Proof. unfold step. now intros ->. Qed.

Lemma run_Disabled evs : forall e : engine,
  state e = Disabled -> run truncateLogs cap e evs = e.
Proof.
  induction evs as [|ev evs IH]; intros e He; cbn; [reflexivity|].
  rewrite step_Disabled by exact He. now apply IH.
Qed.

Lemma step_disables (e : engine) ev :
  disables e ev -> state (step truncateLogs cap e ev) = Disabled.
Proof.
  intros Hd. unfold step.
  destruct ev as [span|r|r|r|ok| | |r]; cbn in Hd; try contradiction.
  1-3: destruct r as [errors [|]|sr]; try contradiction;
       destruct Hd as [-> Hne]; cbn;
       now destruct (rawSpans (buffer e)).
  - now destruct (state e) eqn:He.
  - now destruct (state e) eqn:He.
Qed.

End ReportingFacts.

(** ** The model of float64 against the kernel's binary64 numbers *)

Example scale_agrees_max_draw :
  scaleBinary64 300000000000 (binary64 9007199254740991 9007199254740992)
  = Some (float64.mul (float64.of_int 300000000000) (factor false maxDraw)).
Proof. vm_compute. reflexivity. Qed.

Example scale_agrees_half :
  scaleBinary64 10 (binary64 1 2)
  = Some (float64.mul (float64.of_int 10) (factor false (1 # 2))).
Proof. vm_compute. reflexivity. Qed.

Example scale_agrees_large :
  scaleBinary64 3999999999999999 (binary64 9007199254740991 9007199254740992)
  = Some (float64.mul (float64.of_int 3999999999999999)
            (factor false maxDraw)).
Proof. vm_compute. reflexivity. Qed.

Example scale_agrees_third :
  scaleBinary64 123456789 (binary64 1 3)
  = Some (float64.mul (float64.of_int 123456789)
            (factor false (6004799503160661 # 18014398509481984))).
Proof. vm_compute. reflexivity. Qed.

(** ** The properties *)

(** C1. [Initialize] returns the access-token error exactly when the
    access token is the empty string: an empty token always yields this
    non-nil error, and a non-empty token never does. *)
Theorem C1_access_token_required (env : Env) (o : Options) :
  AccessToken o = ""
  <-> snd (Initialize env o) = Some (Return (Some errAccessToken)).
Proof.
  rewrite <- emptyToken_iff.
  destruct (Initialize_cases env o) as [Ht|Ht Hg|o' msg Ht Hg Ha|Ht Hg Ha];
    rewrite Ht; cbn [snd]; split; try reflexivity; discriminate.
Qed.

(** C2. After a successful [Initialize], every zero-valued limit or period
    holds its documented default and every non-zero one is as supplied;
    the reconnect period is the jittered default or supplied value. *)
Theorem C2_zero_fields_defaulted (env : Env) (o o' : Options) :
  Initialize env o = (o', Some (Return None)) ->
  MaxBufferedSpans o'
    = (if MaxBufferedSpans o =? 0 then 1000 else MaxBufferedSpans o) /\
  MaxLogKeyLen o' = (if MaxLogKeyLen o =? 0 then 256 else MaxLogKeyLen o) /\
  MaxLogValueLen o'
    = (if MaxLogValueLen o =? 0 then 1024 else MaxLogValueLen o) /\
  MaxLogsPerSpan o'
    = (if MaxLogsPerSpan o =? 0 then 500 else MaxLogsPerSpan o) /\
  ReportingPeriod o'
    = (if ReportingPeriod o =? 0 then 2500 * Millisecond
       else ReportingPeriod o) /\
  MinReportingPeriod o'
    = (if MinReportingPeriod o =? 0 then 500 * Millisecond
       else MinReportingPeriod o) /\
  ReportTimeout o'
    = (if ReportTimeout o =? 0 then 30 * Second else ReportTimeout o) /\
  ReconnectPeriod o'
    = jitter env
        (if ReconnectPeriod o =? 0 then 5 * Minute else ReconnectPeriod o).
Proof.
  intros H. apply Initialize_success in H as (_ & _ & _ & ->).
  repeat split.
Qed.

Lemma C2_witness :
  let o' := fst (Initialize sampleEnv trivialOptions) in
  MaxBufferedSpans o' = 1000 /\ MaxLogKeyLen o' = 256 /\
  MaxLogValueLen o' = 1024 /\ MaxLogsPerSpan o' = 500 /\
  ReportingPeriod o' = 2500000000 /\ MinReportingPeriod o' = 500000000 /\
  ReportTimeout o' = 30000000000 /\
  ReconnectPeriod o' = jitter sampleEnv 300000000000.
Proof.
  apply (C2_zero_fields_defaulted sampleEnv trivialOptions).
  vm_compute. reflexivity.
Defined.

(** C3, as stated, fails on the code.  With a reconnect period of -10ns
    and the draw 1/2, [Initialize] succeeds and leaves -11ns, which is
    below the base.  With the default period and the largest draw,
    [1 - 2^-53], it leaves exactly six minutes, which is not below 1.2
    times the base.  With a period of 3999999999999999ns (46 days) and the
    same draw it leaves 4799999999999999ns, which is above 1.2 times the
    base. *)
Lemma C3_counterexample :
  let run1 := Initialize (envWith (1 # 2)) (reconnectOptions (-10)) in
  let run2 := Initialize (envWith maxDraw) (tokenOptions "token") in
  let run3 := Initialize (envWith maxDraw)
                (reconnectOptions 3999999999999999) in
  snd run1 = Some (Return None) /\
  ReconnectPeriod (fst run1) = -11 /\
  ~ (-10 <= ReconnectPeriod (fst run1) /\
     5 * ReconnectPeriod (fst run1) < 6 * -10) /\
  snd run2 = Some (Return None) /\
  ReconnectPeriod (fst run2) = 6 * Minute /\
  ~ (5 * Minute <= ReconnectPeriod (fst run2) /\
     5 * ReconnectPeriod (fst run2) < 6 * (5 * Minute)) /\
  snd run3 = Some (Return None) /\
  ReconnectPeriod (fst run3) = 4799999999999999 /\
  ~ (3999999999999999 <= ReconnectPeriod (fst run3) /\
     5 * ReconnectPeriod (fst run3) < 6 * 3999999999999999).
Proof.
  cbv zeta.
  assert (H1 : Initialize (envWith (1 # 2)) (reconnectOptions (-10))
               = (initialized (envWith (1 # 2)) (reconnectOptions (-10)),
                  Some (Return None))) by (vm_compute; reflexivity).
  assert (H2 : Initialize (envWith maxDraw) (tokenOptions "token")
               = (initialized (envWith maxDraw) (tokenOptions "token"),
                  Some (Return None))) by (vm_compute; reflexivity).
  assert (H3 : Initialize (envWith maxDraw)
                 (reconnectOptions 3999999999999999)
               = (initialized (envWith maxDraw)
                    (reconnectOptions 3999999999999999),
                  Some (Return None))) by (vm_compute; reflexivity).
  assert (R1 : ReconnectPeriod
                 (initialized (envWith (1 # 2)) (reconnectOptions (-10)))
               = -11) by (vm_compute; reflexivity).
  assert (R2 : ReconnectPeriod
                 (initialized (envWith maxDraw) (tokenOptions "token"))
               = 360000000000) by (vm_compute; reflexivity).
  assert (R3 : ReconnectPeriod
                 (initialized (envWith maxDraw)
                    (reconnectOptions 3999999999999999))
               = 4799999999999999) by (vm_compute; reflexivity).
  rewrite H1, H2, H3. cbn [fst snd]. rewrite R1, R2, R3.
  change (6 * Minute) with 360000000000.
  change (5 * Minute) with 300000000000.
  repeat split; lia.
Qed.

(** C3, amended. After a successful [Initialize] the reconnect period is
    the float64 product of the base (the supplied period, or five minutes
    for zero) and [1 + 0.2*r], converted to [int64] by truncation toward
    zero.  For a draw in [0,1): a base of at most [2^49] nanoseconds in
    magnitude gives a period between the base and 1.2 times the base, both
    ends included, on the side of the base's sign; a base below [2^53]
    nanoseconds in magnitude never gives a period of smaller magnitude; and
    up to [2^62] nanoseconds the period keeps the base's sign. *)
Theorem C3_reconnect_jitter (env : Env) (o o' : Options) :
  Initialize env o = (o', Some (Return None)) ->
  (0 <= Float64 env)%Q -> (Float64 env < 1)%Q ->
  let b := if ReconnectPeriod o =? 0 then 5 * Minute else ReconnectPeriod o in
  ReconnectPeriod o'
    = float64.to_int64 (Int64OutOfRange env)
        (float64.mul (float64.of_int b)
           (factor (FusedMultiplyAdd env) (Float64 env))) /\
  (0 < b <= 2 ^ 49 ->
   b <= ReconnectPeriod o' /\ 5 * ReconnectPeriod o' <= 6 * b) /\
  (- 2 ^ 49 <= b < 0 ->
   6 * b <= 5 * ReconnectPeriod o' /\ ReconnectPeriod o' <= b) /\
  (0 < b < 2 ^ 53 -> b <= ReconnectPeriod o') /\
  (- 2 ^ 53 < b < 0 -> ReconnectPeriod o' <= b) /\
  (0 < b <= 2 ^ 62 -> 0 < ReconnectPeriod o') /\
  (- 2 ^ 62 <= b < 0 -> ReconnectPeriod o' < 0).
Proof.
  intros H Hr Hr1 b. apply Initialize_success in H as (_ & _ & _ & ->).
  cbn [initialized ReconnectPeriod]. unfold orDefault. fold b.
  split; [reflexivity|].
  repeat match goal with |- _ /\ _ => split end; intros Hb.
  - now apply jitter_bounds_pos.
  - now apply jitter_bounds_neg.
  - now apply jitter_lower_pos.
  - now apply jitter_upper_neg.
  - now apply jitter_pos.
  - now apply jitter_neg.
Qed.

Lemma C3_witness :
  5 * Minute <= ReconnectPeriod (initialized sampleEnv trivialOptions) /\
  5 * ReconnectPeriod (initialized sampleEnv trivialOptions)
  <= 6 * (5 * Minute).
Proof.
  refine (proj1 (proj2 (C3_reconnect_jitter sampleEnv trivialOptions _
                          _ _ _)) _).
  - vm_compute. reflexivity.
  - vm_compute. discriminate.
  - vm_compute. reflexivity.
  - vm_compute. split; [reflexivity | discriminate].
Defined.

(** C4. With an empty collector host, a successful [Initialize] sets the
    host to the Thrift collector exactly when [UseThrift] is set, and to
    the gRPC collector otherwise, also when HTTP is the selected
    transport; Thrift is selected whenever its flag is set, HTTP when only
    its flag is, and gRPC in every other case. *)
Theorem C4_default_collector_host (env : Env) (o o' : Options) :
  Initialize env o = (o', Some (Return None)) ->
  Host (Collector o) = "" ->
  Host (Collector o')
    = match selectedTransport o with
      | Thrift => DefaultThriftCollectorHost
      | HTTP | GRPC => DefaultGRPCCollectorHost
      end /\
  (Host (Collector o') = DefaultThriftCollectorHost <-> UseThrift o = true) /\
  (UseThrift o = false -> Host (Collector o') = DefaultGRPCCollectorHost) /\
  (selectedTransport o = Thrift <-> UseThrift o = true) /\
  (selectedTransport o = HTTP <-> UseThrift o = false /\ UseHttp o = true) /\
  (selectedTransport o = GRPC <-> UseThrift o = false /\ UseHttp o = false).
Proof.
  intros H Hhost. apply Initialize_success in H as (_ & _ & _ & ->).
  unfold selectedTransport. cbn. rewrite Hhost. cbn.
  destruct (UseThrift o), (UseHttp o); cbn; intuition (try discriminate).
Qed.

Lemma C4_witness :
  Host (Collector (fst (Initialize sampleEnv (tokenOptions "token"))))
    = "collector-grpc.lightstep.com".
Proof.
  refine (proj1 (C4_default_collector_host sampleEnv (tokenOptions "token")
                   _ _ _));
    vm_compute; reflexivity.
Defined.

(** C5. After a successful [Initialize] the tags are a map holding the
    component-name, hostname and command-line keys; every entry the caller
    supplied is still there with its value, a missing one of the three keys
    receives its default, and no other key is added. *)
Theorem C5_default_tags (env : Env) (o o' : Options) :
  Initialize env o = (o', Some (Return None)) ->
  exists m' : gmap string any,
    Tags o' = Map m' /\
    is_Some (m' !! ComponentNameKey) /\
    is_Some (m' !! HostnameKey) /\
    is_Some (m' !! CommandLineKey) /\
    (forall k v, mapOf (Tags o) !! k = Some v -> m' !! k = Some v) /\
    (mapOf (Tags o) !! ComponentNameKey = None ->
     m' !! ComponentNameKey = Some (AString (path_Base (hd "" (Args env))))) /\
    (mapOf (Tags o) !! HostnameKey = None ->
     m' !! HostnameKey = Some (AString (Hostname env))) /\
    (mapOf (Tags o) !! CommandLineKey = None ->
     m' !! CommandLineKey = Some (AString (strings_Join (Args env) " "))) /\
    (forall k, k <> ComponentNameKey -> k <> HostnameKey ->
               k <> CommandLineKey -> m' !! k = mapOf (Tags o) !! k).
Proof.
  intros H. apply Initialize_success in H as (_ & _ & _ & ->).
  exists (initializedTags env (Tags o)). split; [reflexivity|].
  repeat split.
  1-3: rewrite initializedTags_lookup;
       destruct (mapOf (Tags o) !! _); [eauto | cbn; eauto].
  - intros k v Hk. rewrite initializedTags_lookup. now rewrite Hk.
  - intros Hk. rewrite initializedTags_lookup. now rewrite Hk.
  - intros Hk. rewrite initializedTags_lookup. now rewrite Hk.
  - intros Hk. rewrite initializedTags_lookup. now rewrite Hk.
  - intros k H1 H2 H3. rewrite initializedTags_lookup.
    destruct (mapOf (Tags o) !! k); [reflexivity|].
    repeat case_decide; congruence.
Qed.

Lemma C5_witness :
  exists m' : gmap string any,
    Tags (fst (Initialize sampleEnv taggedOptions)) = Map m' /\
    m' !! ComponentNameKey = Some (AString "checkout") /\
    m' !! HostnameKey = Some (AString "web-1") /\
    m' !! CommandLineKey
      = Some (AString "./lightstep_trivial --access_token=YOUR_ACCESS_TOKEN").
Proof.
  destruct (C5_default_tags sampleEnv taggedOptions
              (fst (Initialize sampleEnv taggedOptions)))
    as (m' & Hm' & _ & _ & _ & Hkeep & _ & _ & Hcmd & _).
  { vm_compute. reflexivity. }
  exists m'. split; [exact Hm'|]. split; [|split].
  - apply Hkeep. vm_compute. reflexivity.
  - apply Hkeep. vm_compute. reflexivity.
  - apply Hcmd. vm_compute. reflexivity.
Defined.

(** C6. Appending any sequence of spans to a buffer that is within its
    capacity leaves it within its capacity: the buffer grows to the
    capacity and no further, every append made at capacity adds exactly one
    to the dropped-span counter and leaves the contents as they are, and
    [Append] has no outcome but "accepted" and "dropped". *)
Theorem C6_buffer_bounded {RawSpan : Type}
    (truncateLogs : RawSpan -> RawSpan * Z) (maxBufferedSpans : Z)
    (b : reportBuffer) (spans : list RawSpan) :
  Z.of_nat (length (rawSpans b)) <= maxBufferedSpans ->
  let b' := appendAll truncateLogs maxBufferedSpans b spans in
  Z.of_nat (length (rawSpans b')) <= maxBufferedSpans /\
  Z.of_nat (length (rawSpans b'))
    = Z.min maxBufferedSpans
        (Z.of_nat (length (rawSpans b)) + Z.of_nat (length spans)) /\
  droppedSpanCount b'
    = droppedSpanCount b
      + Z.max 0 (Z.of_nat (length (rawSpans b)) + Z.of_nat (length spans)
                 - maxBufferedSpans) /\
  (forall span : RawSpan,
     Z.of_nat (length (rawSpans b)) = maxBufferedSpans ->
     Append truncateLogs maxBufferedSpans b span
     = (mkBuffer (rawSpans b) (droppedSpanCount b + 1) (droppedLogCount b),
        Dropped)) /\
  (forall span : RawSpan,
     snd (Append truncateLogs maxBufferedSpans b span) = Accepted \/
     snd (Append truncateLogs maxBufferedSpans b span) = Dropped).
Proof.
  intros Hb b'.
  destruct (appendAll_counts truncateLogs maxBufferedSpans spans b Hb)
    as [Hs Hd].
  unfold bufferLength in Hs, Hd. fold b' in Hs, Hd. repeat split.
  - lia.
  - exact Hs.
  - exact Hd.
  - intros span Hfull. apply Append_full. unfold bufferLength. lia.
  - intros span. destruct (snd (Append _ _ _ _)); auto.
Qed.

Lemma C6_witness :
  let b' := appendAll (fun n : nat => (n, 0)) 1000 emptyBuffer (List.seq 0 1500) in
  length (rawSpans b') = 1000%nat /\ droppedSpanCount b' = 500.
Proof.
  destruct (C6_buffer_bounded (fun n : nat => (n, 0)) 1000 emptyBuffer
              (List.seq 0 1500)) as (_ & Hs & Hd & _).
  { cbn. lia. }
  rewrite length_seq in Hs, Hd. cbn [emptyBuffer rawSpans length
    droppedSpanCount] in Hs, Hd.
  split; [lia | exact Hd].
Defined.

(** C7. Once the engine has processed a [Disable()] response, or the
    tracer's [Disable] or [Close] has been called, it is in [Disabled], and
    whatever events follow (spans recorded, flushes, timers) leave it
    exactly as it is: nothing is buffered and no [Report] call is added. *)
Theorem C7_disabled_is_terminal {RawSpan : Type}
    (truncateLogs : RawSpan -> RawSpan * Z) (maxBufferedSpans : Z)
    (e : engine) (ev : event) (evs : list event) :
  disables e ev ->
  let e' := step truncateLogs maxBufferedSpans e ev in
  state e' = Disabled /\
  run truncateLogs maxBufferedSpans e' evs = e' /\
  reportCalls (run truncateLogs maxBufferedSpans e' evs) = reportCalls e' /\
  (forall ev' : event, step truncateLogs maxBufferedSpans e' ev' = e').
Proof.
  intros Hd e'.
  assert (He' : state e' = Disabled) by now apply step_disables.
  repeat split.
  - exact He'.
  - now apply run_Disabled.
  - now rewrite run_Disabled.
  - intros ev'. now apply step_Disabled.
Qed.

Lemma C7_witness :
  let keep := fun n : nat => (n, 0) in
  let e := run keep 1000 newEngine
             (Connected true :: map RecordSpan (List.seq 0 10)) in
  let e' := step keep 1000 e (Close (Response [] false)) in
  state e' = Disabled /\
  reportCalls e' = [List.seq 0 10] /\
  reportCalls (run keep 1000 e'
                 [RecordSpan 10%nat; Flush (Response [] false);
                  Timer (Response [] false)])
  = [List.seq 0 10].
Proof.
  intros keep e e'.
  destruct (C7_disabled_is_terminal keep 1000 e (Close (Response [] false))
              [RecordSpan 10%nat; Flush (Response [] false);
               Timer (Response [] false)] I) as (Hst & _ & Hcalls & _).
  split; [exact Hst|]. split; [reflexivity|].
  etransitivity; [exact Hcalls | reflexivity].
Defined.

(** C8. When [Initialize] returns an error, the options are exactly the
    ones the caller passed, and the error is one of the two checks made
    before any default is set: an empty access token or a runtime GUID tag
    of the caller's. *)
Theorem C8_failure_leaves_options (env : Env) (o o' : Options) (e : string) :
  Initialize env o = (o', Some (Return (Some e))) ->
  o' = o /\
  (AccessToken o = "" \/
   exists (m : gmap string any) (v : any),
     Tags o = Map m /\ m !! GUIDKey = Some v).
Proof.
  intros H. apply Initialize_failure in H as [-> [[Ht _]|(_ & Hg & _)]].
  - split; [reflexivity|]. left. now apply emptyToken_iff.
  - split; [reflexivity|]. right. unfold hasGUID, found in Hg.
    destruct (Tags o) as [|m]; [discriminate|].
    destruct (m !! GUIDKey) as [v|] eqn:Hv; [eauto | discriminate].
Qed.

Lemma C8_witness :
  fst (Initialize sampleEnv guidOptions) = guidOptions /\
  fst (Initialize sampleEnv zeroOptions) = zeroOptions.
Proof.
  split.
  - refine (proj1 (C8_failure_leaves_options sampleEnv guidOptions _ errGUID _)).
    vm_compute. reflexivity.
  - refine (proj1 (C8_failure_leaves_options sampleEnv zeroOptions _
                     errAccessToken _)).
    vm_compute. reflexivity.
Defined.

(** C9. Options whose tags contain the runtime GUID key make [Initialize]
    return a non-nil error, whatever the other options are; with a
    non-empty access token it is the error about the GUID. *)
Theorem C9_guid_tag_rejected (env : Env) (o : Options)
    (m : gmap string any) (v : any) :
  Tags o = Map m -> m !! GUIDKey = Some v ->
  exists e : string,
    snd (Initialize env o) = Some (Return (Some e)) /\
    (AccessToken o <> "" -> e = errGUID).
Proof.
  intros Hm Hv.
  assert (Hg : hasGUID o = true).
  { unfold hasGUID. rewrite Hm. cbn. now rewrite Hv. }
  destruct (emptyToken o) eqn:Ht.
  - rewrite Initialize_emptyToken by exact Ht. eexists. split; [reflexivity|].
    intros Hne. now apply emptyToken_iff in Ht.
  - rewrite Initialize_hasGUID by assumption. eauto.
Qed.

Lemma C9_witness :
  exists e : string,
    snd (Initialize sampleEnv guidOptions) = Some (Return (Some e)) /\
    (AccessToken guidOptions <> "" -> e = errGUID).
Proof.
  apply (C9_guid_tag_rejected sampleEnv guidOptions
           {[ GUIDKey := AString "0123456789abcdef" ]}
           (AString "0123456789abcdef")).
  - reflexivity.
  - vm_compute. reflexivity.
Defined.

Lemma orDefault_neg d x : x < 0 -> orDefault d x = x.
Proof.
  intros H. unfold orDefault. destruct (Z.eqb_spec x 0); [lia | reflexivity].
Qed.

(** C10. With a non-empty access token and no runtime GUID tag,
    [Initialize] returns no error whatever the sign of the limits and
    periods, and succeeds when [os.Args] is not empty.  On success a
    negative limit or period is as supplied, a negative reconnect period is
    the jitter of the supplied value and not of the default (negative
    again, down to [-2^62] nanoseconds, where its conversion is specified),
    and a collector port of zero or less becomes 80 for plaintext and 443
    otherwise, while a positive port is kept; the port of the web API
    endpoint is never touched. *)
Theorem C10_negative_values_survive (env : Env) (o : Options) :
  AccessToken o <> "" -> found GUIDKey (Tags o) = false ->
  (0 <= Float64 env)%Q -> (Float64 env < 1)%Q ->
  (forall o' e, Initialize env o <> (o', Some (Return (Some e)))) /\
  (Args env <> [] -> Initialize env o = (initialized env o, Some (Return None))) /\
  (forall o', Initialize env o = (o', Some (Return None)) ->
     (MaxBufferedSpans o < 0 -> MaxBufferedSpans o' = MaxBufferedSpans o) /\
     (MaxLogKeyLen o < 0 -> MaxLogKeyLen o' = MaxLogKeyLen o) /\
     (MaxLogValueLen o < 0 -> MaxLogValueLen o' = MaxLogValueLen o) /\
     (MaxLogsPerSpan o < 0 -> MaxLogsPerSpan o' = MaxLogsPerSpan o) /\
     (GRPCMaxCallSendMsgSizeBytes o < 0 ->
      GRPCMaxCallSendMsgSizeBytes o' = GRPCMaxCallSendMsgSizeBytes o) /\
     (ReportingPeriod o < 0 -> ReportingPeriod o' = ReportingPeriod o) /\
     (MinReportingPeriod o < 0 ->
      MinReportingPeriod o' = MinReportingPeriod o) /\
     (ReportTimeout o < 0 -> ReportTimeout o' = ReportTimeout o) /\
     (ReconnectPeriod o < 0 ->
      ReconnectPeriod o' = jitter env (ReconnectPeriod o)) /\
     (- 2 ^ 62 <= ReconnectPeriod o < 0 -> ReconnectPeriod o' < 0) /\
     (Port (Collector o) <= 0 ->
      Port (Collector o') = if Plaintext (Collector o) then 80 else 443) /\
     (0 < Port (Collector o) -> Port (Collector o') = Port (Collector o)) /\
     LightStepAPI o' = LightStepAPI o).
Proof.
  intros Htok Hguid Hr Hr1.
  assert (Ht : emptyToken o = false).
  { destruct (emptyToken o) eqn:E; [|reflexivity].
    now apply emptyToken_iff in E. }
  split; [|split].
  - intros o' e H. apply Initialize_failure in H as [_ [[H _]|(_ & H & _)]].
    + congruence.
    + unfold hasGUID in H. congruence.
  - intros Hargs. apply Initialize_valid; [exact Ht | exact Hguid |].
    unfold needsArgs0. destruct (Args env); [contradiction|].
    apply andb_false_r.
  - intros o' H. apply Initialize_success in H as (_ & _ & _ & ->).
    cbn [initialized initializedCollector MaxBufferedSpans MaxLogKeyLen
         MaxLogValueLen MaxLogsPerSpan GRPCMaxCallSendMsgSizeBytes
         ReportingPeriod MinReportingPeriod ReportTimeout ReconnectPeriod
         Collector Port LightStepAPI].
    repeat match goal with |- _ /\ _ => split end; try reflexivity;
      intros Hneg; try (now rewrite orDefault_neg).
    + rewrite orDefault_neg by lia. now apply jitter_neg.
    + destruct (Z.leb_spec (Port (Collector o)) 0); [reflexivity | lia].
    + destruct (Z.leb_spec (Port (Collector o)) 0); [lia | reflexivity].
Qed.

Lemma C10_witness :
  let o' := initialized sampleEnv negativeOptions in
  Initialize sampleEnv negativeOptions = (o', Some (Return None)) /\
  MaxBufferedSpans o' = -1 /\ MaxLogKeyLen o' = -2 /\
  MaxLogValueLen o' = -3 /\ MaxLogsPerSpan o' = -4 /\
  ReportingPeriod o' = -5 /\ MinReportingPeriod o' = -6 /\
  ReportTimeout o' = -7 /\ ReconnectPeriod o' < 0 /\
  Port (Collector o') = 80.
Proof.
  intros o'.
  destruct (C10_negative_values_survive sampleEnv negativeOptions)
    as (_ & Hok & Hfields).
  { discriminate. }
  { reflexivity. }
  { vm_compute. discriminate. }
  { vm_compute. reflexivity. }
  assert (Hrun : Initialize sampleEnv negativeOptions
                 = (o', Some (Return None))) by (apply Hok; discriminate).
  destruct (Hfields o' Hrun)
    as (H1 & H2 & H3 & H4 & _ & H5 & H6 & H7 & _ & H8 & H9 & _).
  split; [exact Hrun|].
  split; [apply H1; reflexivity|]. split; [apply H2; reflexivity|].
  split; [apply H3; reflexivity|]. split; [apply H4; reflexivity|].
  split; [apply H5; reflexivity|]. split; [apply H6; reflexivity|].
  split; [apply H7; reflexivity|].
  split; [apply H8; split; [discriminate | reflexivity]
         | apply H9; discriminate].
Defined.

(** ** Strings *)

Lemma append_String a s t : (String a s ++ t)%string = String a (s ++ t)%string.
Proof. reflexivity. Qed.

Lemma append_assoc_string (s t u : string) :
  ((s ++ t) ++ u)%string = (s ++ (t ++ u))%string.
Proof.
  induction s as [|a s IH]; [reflexivity|].
  rewrite !append_String. now f_equal.
Qed.

Lemma length_append_string (s t : string) :
  String.length (s ++ t)%string = (String.length s + String.length t)%nat.
Proof.
  induction s as [|a s IH]; [reflexivity|].
  rewrite append_String. simpl. now f_equal.
Qed.

Lemma append_cancel_r (s1 s2 t : string) :
  (s1 ++ t)%string = (s2 ++ t)%string -> s1 = s2.
Proof.
  revert s2. induction s1 as [|a s1 IH]; intros [|b s2] H; rewrite ?append_String in H; change (append EmptyString ?x) with x in H.
  - reflexivity.
  - apply (f_equal String.length) in H. simpl in H.
    rewrite length_append_string in H. lia.
  - apply (f_equal String.length) in H. simpl in H.
    rewrite length_append_string in H. lia.
  - inversion H. f_equal. now apply IH.
Qed.

Lemma contains_append c (s t : string) :
  contains c (s ++ t) = contains c s || contains c t.
Proof.
  induction s as [|a s IH]; [reflexivity|].
  rewrite append_String. cbn [contains]. now rewrite IH, orb_assoc.
Qed.

(** A string is cut in one way only at its last occurrence of [c]. *)
Lemma cut_at_last c (h1 h2 d1 d2 : string) :
  contains c d1 = false -> contains c d2 = false ->
  (h1 ++ String c d1)%string = (h2 ++ String c d2)%string ->
  h1 = h2 /\ d1 = d2.
Proof.
  intros Hd1 Hd2. revert h2.
  induction h1 as [|a h1 IH]; intros [|b h2] H; rewrite ?append_String in H.
  - injection H as ->. auto.
  - injection H as <- ->.
    rewrite contains_append in Hd1. cbn [contains] in Hd1.
    rewrite Ascii.eqb_refl, orb_true_r in Hd1. discriminate.
  - injection H as -> <-.
    rewrite contains_append in Hd2. cbn [contains] in Hd2.
    rewrite Ascii.eqb_refl, orb_true_r in Hd2. discriminate.
  - injection H as -> Ht. destruct (IH h2 Ht) as [-> ->]. auto.
Qed.

(** ** Decimal numbers *)

Lemma fmt_d_inj a b : fmt_d a = fmt_d b -> a = b.
Proof.
  unfold fmt_d. intros H. apply to_int_inj.
  assert (Hnil : forall n, Z.to_int n <> Decimal.Pos Decimal.Nil /\
                           Z.to_int n <> Decimal.Neg Decimal.Nil).
  { intros [|p|p]; cbn; split; try discriminate; intros E; inversion E as [E'];
      now apply Unsigned.to_uint_nonnil in E'. }
  apply (f_equal NilZero.int_of_string) in H.
  rewrite !NilZero.isi in H by apply Hnil. now inversion H.
Qed.

Lemma digits_no_colon d : contains ":" (NilEmpty.string_of_uint d) = false.
Proof. induction d; cbn; auto. Qed.

Lemma fmt_d_no_colon n : contains ":" (fmt_d n) = false.
Proof.
  assert (Hu : forall d, contains ":" (NilZero.string_of_uint d) = false).
  { intros d. destruct d; try apply digits_no_colon. reflexivity. }
  unfold fmt_d. destruct (Z.to_int n); cbn; apply Hu.
Qed.

Lemma append_cancel_l (p s1 s2 : string) :
  (p ++ s1)%string = (p ++ s2)%string -> s1 = s2.
Proof.
  induction p as [|a p IH]; intros H; [exact H|].
  rewrite !append_String in H. injection H as H. now apply IH.
Qed.

(** ** Endpoint addresses *)

Lemma HostPort_cut h1 h2 n1 n2 :
  (h1 ++ ":" ++ fmt_d n1)%string = (h2 ++ ":" ++ fmt_d n2)%string ->
  h1 = h2 /\ n1 = n2.
Proof.
  intros H.
  destruct (cut_at_last ":" h1 h2 (fmt_d n1) (fmt_d n2)) as [Hh Hd];
    [apply fmt_d_no_colon | apply fmt_d_no_colon | exact H |].
  split; [exact Hh | now apply fmt_d_inj].
Qed.

Lemma URL_unfold e :
  URL e = (scheme e ++ "://" ++ HostPort e ++ DefaultCollectorPath)%string.
Proof.
  unfold URL, HostPort, scheme.
  destruct (Plaintext e); now rewrite !append_assoc_string.
Qed.

Lemma scheme_distinct (a b : string) :
  (plaintextProtocol ++ "://" ++ a)%string
  <> (secureProtocol ++ "://" ++ b)%string.
Proof.
  unfold plaintextProtocol, secureProtocol. intros H.
  rewrite !append_String in H. discriminate H.
Qed.

(** X1. The dial address [HostPort] determines the host and the port: the
    decimal port holds no colon, so the address is cut at its last colon in
    one way only, whatever colons the host has. *)
Theorem X1_HostPort_injective (e1 e2 : Endpoint) :
  HostPort e1 = HostPort e2 -> Host e1 = Host e2 /\ Port e1 = Port e2.
Proof. unfold HostPort. apply HostPort_cut. Qed.

Lemma X1_witness :
  Host localCollector = Host (mkEndpoint "localhost" 9997 false) /\
  Port localCollector = Port (mkEndpoint "localhost" 9997 false).
Proof.
  apply (X1_HostPort_injective localCollector
           (mkEndpoint "localhost" 9997 false)).
  reflexivity.
Defined.

(** X2. [URL] is injective: two endpoints with the same URL have the same
    host, port and plaintext flag. *)
Theorem X2_URL_injective (e1 e2 : Endpoint) : URL e1 = URL e2 -> e1 = e2.
Proof.
  rewrite !URL_unfold. unfold scheme.
  destruct e1 as [h1 p1 b1], e2 as [h2 p2 b2]. cbn [Plaintext].
  intros H.
  assert (Hb : b1 = b2).
  { destruct b1, b2; try reflexivity; exfalso.
    - exact (scheme_distinct _ _ H).
    - exact (scheme_distinct _ _ (eq_sym H)). }
  subst b2.
  apply append_cancel_l, append_cancel_l, append_cancel_r in H.
  apply HostPort_cut in H as [H1 H2]. cbn in H1, H2. now subst.
Qed.

Lemma X2_witness : localCollector = mkEndpoint "localhost" (9990 + 7) true.
Proof. apply (X2_URL_injective localCollector). reflexivity. Defined.

(** X3. The URL is the protocol, ["://"], the dial address and the
    collector path, with ["http"] for a plaintext endpoint and ["https"]
    otherwise; so two endpoints of the same protocol have the same URL
    exactly when they have the same dial address, and endpoints of
    different protocols never have the same URL. *)
Theorem X3_URL_HostPort (e1 e2 : Endpoint) :
  URL e1 = ((if Plaintext e1 then "http" else "https") ++ "://" ++ HostPort e1
            ++ "/_rpc/v1/reports/binary")%string /\
  (Plaintext e1 = Plaintext e2 ->
   (URL e1 = URL e2 <-> HostPort e1 = HostPort e2)) /\
  (Plaintext e1 <> Plaintext e2 -> URL e1 <> URL e2).
Proof.
  split; [apply URL_unfold|]. split.
  - intros Hp. rewrite !URL_unfold. unfold scheme. rewrite Hp. split.
    + intros H. now apply append_cancel_l, append_cancel_l, append_cancel_r in H.
    + now intros ->.
  - intros Hp H. rewrite !URL_unfold in H. unfold scheme in H.
    destruct (Plaintext e1), (Plaintext e2);
      first [ now apply Hp
            | exact (scheme_distinct _ _ H)
            | exact (scheme_distinct _ _ (eq_sym H)) ].
Qed.

(** ** Start span options *)

Section StartSpanFacts.
Context {OT : Type}.
Implicit Types (opts : @startSpanOptions OT) (sso : list (@StartSpanOption OT)).

Lemma applyOptions_app opts sso1 sso2 :
  applyOptions opts (sso1 ++ sso2)%list
  = match applyOptions opts sso1 with
    | Some opts' => applyOptions opts' sso2
    | None => None
    end.
Proof.
  revert opts. induction sso1 as [|o sso1 IH]; intros opts; [reflexivity|].
  cbn. destruct (applyOption opts o); [apply IH | reflexivity].
Qed.

Lemma applyOptions_nil opts sso :
  existsb isNil sso = true -> applyOptions opts sso = None.
Proof.
  revert opts. induction sso as [|o sso IH]; intros opts H; [discriminate|].
  cbn in *. destruct (applyOption opts o) as [opts'|] eqn:Ho; [|reflexivity].
  apply orb_true_iff in H as [H|H]; [|now apply IH].
  destruct o; cbn in *; discriminate.
Qed.

Lemma applyOptions_lightStep opts sso :
  forallb isLightStep sso = true ->
  exists opts', applyOptions opts sso = Some opts' /\
                sso_Options opts' = sso_Options opts.
Proof.
  revert opts. induction sso as [|o sso IH]; intros opts H; [now exists opts|].
  cbn in H. apply andb_true_iff in H as [Ho H].
  destruct o as [|o| |f]; try discriminate. cbn.
  destruct (IH (applyLS o opts) H) as (opts' & -> & Ho').
  exists opts'. split; [reflexivity | rewrite Ho'; now destruct o].
Qed.

(** An option that is not of a given kind leaves the id of that kind. *)
Lemma applyOption_SetSpanID opts o opts' :
  applyOption opts o = Some opts' -> isSetSpanID o = false ->
  sso_SetSpanID opts' = sso_SetSpanID opts.
Proof.
  destruct o as [|[v|v|v]| |f]; cbn; try discriminate;
    try (destruct (f _)); intros [= <-] _; try reflexivity; discriminate.
Qed.

Lemma applyOption_SetTraceID opts o opts' :
  applyOption opts o = Some opts' -> isSetTraceID o = false ->
  sso_SetTraceID opts' = sso_SetTraceID opts.
Proof.
  destruct o as [|[v|v|v]| |f]; cbn; try discriminate;
    try (destruct (f _)); intros [= <-] _; try reflexivity; discriminate.
Qed.

Lemma applyOption_SetParentSpanID opts o opts' :
  applyOption opts o = Some opts' -> isSetParentSpanID o = false ->
  sso_SetParentSpanID opts' = sso_SetParentSpanID opts.
Proof.
  destruct o as [|[v|v|v]| |f]; cbn; try discriminate;
    try (destruct (f _)); intros [= <-] _; try reflexivity; discriminate.
Qed.

(** A field that every option of the list leaves is as before the loop. *)
Lemma applyOptions_keeps (field : @startSpanOptions OT -> Z)
    (sets : @StartSpanOption OT -> bool) :
  (forall opts o opts',
     applyOption opts o = Some opts' -> sets o = false ->
     field opts' = field opts) ->
  forall sso opts opts',
    applyOptions opts sso = Some opts' -> existsb sets sso = false ->
    field opts' = field opts.
Proof.
  intros Hstep. induction sso as [|o sso IH]; intros opts opts' H Hex.
  - now injection H as <-.
  - cbn in H, Hex. apply orb_false_iff in Hex as [Ho Hex].
    destruct (applyOption opts o) as [opts1|] eqn:H1; [|discriminate].
    rewrite (IH _ _ H Hex). now apply (Hstep opts o).
Qed.

(** The id set by the last option of its kind is the one after the loop. *)
Lemma applyOptions_last (field : @startSpanOptions OT -> Z)
    (sets : @StartSpanOption OT -> bool) (o : lightStepStartSpanOption) v :
  (forall opts o opts',
     applyOption opts o = Some opts' -> sets o = false ->
     field opts' = field opts) ->
  (forall opts, field (applyLS o opts) = v) ->
  forall sso sso' opts opts',
    applyOptions opts (sso ++ LightStep o :: sso')%list = Some opts' ->
    existsb sets sso' = false ->
    field opts' = v.
Proof.
  intros Hstep Hset sso sso' opts opts' H Hex.
  rewrite applyOptions_app in H.
  destruct (applyOptions opts sso) as [opts1|]; [|discriminate].
  cbn in H.
  rewrite (applyOptions_keeps field sets Hstep _ _ _ H Hex). apply Hset.
Qed.

(** The options of this package and the others do not meet: the first set
    the ids and the second the embedded options. *)
Lemma applyOptions_split sso : forall opts opts',
  applyOptions opts sso = Some opts' ->
  (forall ot,
     applyOptions
       (mkStartSpanOptions ot (sso_SetSpanID opts) (sso_SetParentSpanID opts)
          (sso_SetTraceID opts))
       (List.filter isLightStep sso)
     = Some (mkStartSpanOptions ot (sso_SetSpanID opts')
               (sso_SetParentSpanID opts') (sso_SetTraceID opts'))) /\
  (forall s p t,
     applyOptions (mkStartSpanOptions (sso_Options opts) s p t)
       (List.filter (fun o => negb (isLightStep o)) sso)
     = Some (mkStartSpanOptions (sso_Options opts') s p t)).
Proof.
  induction sso as [|o sso IH]; intros opts opts' H.
  - injection H as <-. now split.
  - cbn in H. destruct (applyOption opts o) as [opts1|] eqn:H1; [|discriminate].
    destruct (IH _ _ H) as [IHl IHo].
    destruct o as [|o| |f]; cbn in H1; try discriminate.
    + injection H1 as <-. cbn [List.filter isLightStep negb]. split.
      * intros ot. cbn [applyOptions applyOption]. rewrite <- IHl.
        now destruct o.
      * intros s p t. rewrite <- IHo. now destruct o.
    + destruct (f (sso_Options opts)) as [ot1|] eqn:Hf; [|discriminate].
      injection H1 as <-. cbn [List.filter isLightStep negb]. split.
      * intros ot. now rewrite <- IHl.
      * intros s p t. cbn [applyOptions applyOption sso_Options].
        rewrite Hf. now rewrite <- IHo.
Qed.

End StartSpanFacts.

(** X5. [newStartSpanOptions] panics on any list that holds a nil option,
    be it the nil interface value or a nil pointer to one of the three
    option types, wherever in the list it stands. *)
Theorem X5_nil_option_panics {OT : Type} (zeroOT : OT)
    (sso : list (@StartSpanOption OT)) :
  existsb isNil sso = true -> newStartSpanOptions zeroOT sso = None.
Proof. apply applyOptions_nil. Qed.

Lemma X5_witness :
  newStartSpanOptions [] (importOptions ++ [NilOption])%list = None /\
  newStartSpanOptions [] (NilLightStep :: importOptions) = None.
Proof.
  split.
  - apply (X5_nil_option_panics [] (importOptions ++ [NilOption])%list).
    reflexivity.
  - apply (X5_nil_option_panics [] (NilLightStep :: importOptions)).
    reflexivity.
Defined.

(** X6. On a list made of [SetSpanID], [SetTraceID] and [SetParentSpanID]
    values only, [newStartSpanOptions] returns, and the embedded
    opentracing options are still the zero value. *)
Theorem X6_lightstep_options_only {OT : Type} (zeroOT : OT)
    (sso : list (@StartSpanOption OT)) :
  forallb isLightStep sso = true ->
  exists opts, newStartSpanOptions zeroOT sso = Some opts /\
               sso_Options opts = zeroOT.
Proof.
  intros H. unfold newStartSpanOptions.
  destruct (applyOptions_lightStep (mkStartSpanOptions zeroOT 0 0 0) sso H)
    as (opts & Ho & Hz).
  now exists opts.
Qed.

Lemma X6_witness :
  exists opts,
    newStartSpanOptions (OTStartSpanOptions := list string) []
      [LightStep (SetTraceID 7); LightStep (SetSpanID 1)] = Some opts /\
    sso_Options opts = [].
Proof.
  apply (X6_lightstep_options_only (OT := list string) []
           [LightStep (SetTraceID 7); LightStep (SetSpanID 1)]).
  reflexivity.
Defined.

(** X7. When [newStartSpanOptions] returns, each of the three ids is the
    value of the last option of its kind in the list, whatever stands
    before it and whatever options of the other kinds or of other packages
    follow it; and it is zero when the list has no option of that kind. *)
Theorem X7_last_id_wins {OT : Type} (zeroOT : OT)
    (sso : list (@StartSpanOption OT)) (opts : startSpanOptions) :
  newStartSpanOptions zeroOT sso = Some opts ->
  (forall l v l', sso = (l ++ LightStep (SetSpanID v) :: l')%list ->
     existsb isSetSpanID l' = false -> sso_SetSpanID opts = v) /\
  (forall l v l', sso = (l ++ LightStep (SetTraceID v) :: l')%list ->
     existsb isSetTraceID l' = false -> sso_SetTraceID opts = v) /\
  (forall l v l', sso = (l ++ LightStep (SetParentSpanID v) :: l')%list ->
     existsb isSetParentSpanID l' = false -> sso_SetParentSpanID opts = v) /\
  (existsb isSetSpanID sso = false -> sso_SetSpanID opts = 0) /\
  (existsb isSetTraceID sso = false -> sso_SetTraceID opts = 0) /\
  (existsb isSetParentSpanID sso = false -> sso_SetParentSpanID opts = 0).
Proof.
  unfold newStartSpanOptions. intros H.
  repeat match goal with |- _ /\ _ => split end.
  - intros l v l' -> Hex.
    now apply (applyOptions_last sso_SetSpanID isSetSpanID (SetSpanID v) v
                 applyOption_SetSpanID (fun _ => eq_refl) _ _ _ _ H).
  - intros l v l' -> Hex.
    now apply (applyOptions_last sso_SetTraceID isSetTraceID (SetTraceID v) v
                 applyOption_SetTraceID (fun _ => eq_refl) _ _ _ _ H).
  - intros l v l' -> Hex.
    now apply (applyOptions_last sso_SetParentSpanID isSetParentSpanID
                 (SetParentSpanID v) v
                 applyOption_SetParentSpanID (fun _ => eq_refl) _ _ _ _ H).
  - intros Hex.
    now rewrite (applyOptions_keeps sso_SetSpanID isSetSpanID
                   applyOption_SetSpanID _ _ _ H Hex).
  - intros Hex.
    now rewrite (applyOptions_keeps sso_SetTraceID isSetTraceID
                   applyOption_SetTraceID _ _ _ H Hex).
  - intros Hex.
    now rewrite (applyOptions_keeps sso_SetParentSpanID isSetParentSpanID
                   applyOption_SetParentSpanID _ _ _ H Hex).
Qed.

Lemma X7_witness :
  let opts := mkStartSpanOptions ["b"; "a"] 2 3 7 in
  newStartSpanOptions [] importOptions = Some opts /\
  sso_SetSpanID opts = 2 /\ sso_SetTraceID opts = 7 /\
  sso_SetParentSpanID opts = 3.
Proof.
  intros opts.
  assert (H : newStartSpanOptions [] importOptions = Some opts)
    by reflexivity.
  destruct (X7_last_id_wins [] importOptions opts H)
    as (Hs & Ht & Hp & _).
  split; [exact H|]. split; [|split].
  - apply (Hs [tagOption "a"; LightStep (SetTraceID 7);
               LightStep (SetSpanID 1); LightStep (SetParentSpanID 3);
               tagOption "b"] 2 []); reflexivity.
  - apply (Ht [tagOption "a"] 7
              [LightStep (SetSpanID 1); LightStep (SetParentSpanID 3);
               tagOption "b"; LightStep (SetSpanID 2)]); reflexivity.
  - apply (Hp [tagOption "a"; LightStep (SetTraceID 7);
               LightStep (SetSpanID 1)] 3
              [tagOption "b"; LightStep (SetSpanID 2)]); reflexivity.
Defined.

(** X8. The options of this package and the options of other packages do
    not meet.  When [newStartSpanOptions] returns on a list, it returns the
    same three ids on the list without the foreign options, and the same
    embedded opentracing options on the list without the options of this
    package: the first never write the embedded options and the second are
    handed nothing else. *)
Theorem X8_options_separate {OT : Type} (zeroOT : OT)
    (sso : list (@StartSpanOption OT)) (opts : startSpanOptions) :
  newStartSpanOptions zeroOT sso = Some opts ->
  newStartSpanOptions zeroOT (List.filter isLightStep sso)
  = Some (mkStartSpanOptions zeroOT (sso_SetSpanID opts)
            (sso_SetParentSpanID opts) (sso_SetTraceID opts)) /\
  newStartSpanOptions zeroOT
    (List.filter (fun o => negb (isLightStep o)) sso)
  = Some (mkStartSpanOptions (sso_Options opts) 0 0 0).
Proof.
  unfold newStartSpanOptions. intros H.
  destruct (applyOptions_split sso _ _ H) as [Hl Ho]. split.
  - apply (Hl zeroOT).
  - apply (Ho 0 0 0).
Qed.

Lemma X8_witness :
  newStartSpanOptions (OTStartSpanOptions := list string) []
    [LightStep (SetTraceID 7); LightStep (SetSpanID 1);
     LightStep (SetParentSpanID 3); LightStep (SetSpanID 2)]
  = Some (mkStartSpanOptions [] 2 3 7) /\
  newStartSpanOptions [] [tagOption "a"; tagOption "b"]
  = Some (mkStartSpanOptions ["b"; "a"] 0 0 0).
Proof.
  apply (X8_options_separate [] importOptions
           (mkStartSpanOptions ["b"; "a"] 2 3 7)).
  reflexivity.
Defined.

(** ** More on [Initialize] *)

Lemma emptyToken_false o : emptyToken o = false <-> AccessToken o <> "".
Proof.
  rewrite <- emptyToken_iff. destruct (emptyToken o); split; congruence.
Qed.

Lemma needsArgs0_false env o :
  needsArgs0 env o = false
  <-> found ComponentNameKey (Tags o) = true \/ Args env <> [].
Proof.
  unfold needsArgs0.
  destruct (found ComponentNameKey (Tags o)), (Args env); cbn;
    split; intros H; try reflexivity; try discriminate; auto.
  destruct H as [H|H]; [discriminate | contradiction].
Qed.

(** X4. When the collector is left unset (no host, no positive port), a
    successful [Initialize] leaves one of four addresses: the Thrift or the
    gRPC collector host, on port 80 over http for a plaintext endpoint and
    on port 443 over https otherwise. *)
Theorem X4_default_collector_address (env : Env) (o o' : Options) :
  Initialize env o = (o', Some (Return None)) ->
  Host (Collector o) = "" -> Port (Collector o) <= 0 ->
  HostPort (Collector o')
  = match UseThrift o, Plaintext (Collector o) with
    | true, true => "collector.lightstep.com:80"
    | true, false => "collector.lightstep.com:443"
    | false, true => "collector-grpc.lightstep.com:80"
    | false, false => "collector-grpc.lightstep.com:443"
    end /\
  URL (Collector o')
  = match UseThrift o, Plaintext (Collector o) with
    | true, true => "http://collector.lightstep.com:80/_rpc/v1/reports/binary"
    | true, false =>
        "https://collector.lightstep.com:443/_rpc/v1/reports/binary"
    | false, true =>
        "http://collector-grpc.lightstep.com:80/_rpc/v1/reports/binary"
    | false, false =>
        "https://collector-grpc.lightstep.com:443/_rpc/v1/reports/binary"
    end.
Proof.
  intros H Hhost Hport. apply Initialize_success in H as (_ & _ & _ & ->).
  cbn [initialized Collector UseThrift]. unfold initializedCollector.
  rewrite Hhost. destruct (Z.leb_spec (Port (Collector o)) 0); [|lia].
  destruct (UseThrift o), (Plaintext (Collector o)); split; reflexivity.
Qed.

Lemma X4_witness :
  HostPort (Collector (fst (Initialize sampleEnv (tokenOptions "token"))))
  = "collector-grpc.lightstep.com:443" /\
  URL (Collector (fst (Initialize sampleEnv (tokenOptions "token"))))
  = "https://collector-grpc.lightstep.com:443/_rpc/v1/reports/binary".
Proof.
  apply (X4_default_collector_address sampleEnv (tokenOptions "token")).
  - vm_compute. reflexivity.
  - reflexivity.
  - vm_compute. discriminate.
Defined.

(** X9. [Initialize] returns nil exactly when the access token is not
    empty, the tags do not hold the runtime GUID key, and the component
    name is either among the tags or can be taken from a non-empty
    [os.Args]. *)
Theorem X9_Initialize_succeeds_iff (env : Env) (o : Options) :
  snd (Initialize env o) = Some (Return None)
  <-> AccessToken o <> "" /\ found GUIDKey (Tags o) = false /\
      (found ComponentNameKey (Tags o) = true \/ Args env <> []).
Proof.
  rewrite <- emptyToken_false, <- needsArgs0_false. fold (hasGUID o).
  destruct (Initialize_cases env o) as [Ht|Ht Hg|o' msg Ht Hg Ha|Ht Hg Ha];
    cbn [snd]; split; intros H; try discriminate; auto;
    destruct H as (H1 & H2 & H3); congruence.
Qed.

(** X10. [Initialize] panics exactly when the access token is not empty,
    the tags hold neither the runtime GUID key nor the component name key,
    and [os.Args] is empty; the panic is the index out of range of
    [os.Args[0]], never an assignment into a nil map. *)
Theorem X10_Initialize_panics_iff (env : Env) (o : Options) :
  ((exists msg, snd (Initialize env o) = Some (Panic msg))
   <-> AccessToken o <> "" /\ found GUIDKey (Tags o) = false /\
       found ComponentNameKey (Tags o) = false /\ Args env = []) /\
  (forall msg, snd (Initialize env o) = Some (Panic msg) ->
     msg = "index out of range [0] with length 0").
Proof.
  assert (Hn : needsArgs0 env o = true
               <-> found ComponentNameKey (Tags o) = false /\ Args env = []).
  { unfold needsArgs0.
    destruct (found ComponentNameKey (Tags o)), (Args env); cbn;
      split; intros H; try discriminate; auto; destruct H; discriminate. }
  rewrite <- emptyToken_false, <- Hn. fold (hasGUID o).
  destruct (emptyToken o) eqn:Ht.
  { rewrite Initialize_emptyToken by exact Ht. cbn [snd]. split.
    - split; [intros [msg H]; discriminate | intros (H & _); discriminate].
    - intros msg H. discriminate. }
  destruct (hasGUID o) eqn:Hg.
  { rewrite Initialize_hasGUID by assumption. cbn [snd]. split.
    - split; [intros [msg H]; discriminate | intros (_ & H & _); discriminate].
    - intros msg H. discriminate. }
  destruct (needsArgs0 env o) eqn:Ha.
  - destruct (Initialize_panics env o Ht Hg Ha) as [o' ->]. cbn [snd]. split.
    + split; [auto | eauto].
    + intros msg H. now injection H as <-.
  - rewrite Initialize_valid by assumption. cbn [snd]. split.
    + split; [intros [msg H]; discriminate | intros (_ & _ & H); discriminate].
    + intros msg H. discriminate.
Qed.

Lemma orDefault_nonzero d x : d <> 0 -> orDefault d x <> 0.
Proof. unfold orDefault. destruct (Z.eqb_spec x 0); auto. Qed.

Lemma initializedTags_noGUID env t :
  found GUIDKey t = false -> initializedTags env t !! GUIDKey = None.
Proof.
  intros H. rewrite initializedTags_lookup.
  assert (Hm : mapOf t !! GUIDKey = None).
  { destruct t as [|m]; [reflexivity|]. cbn in *.
    now destruct (m !! GUIDKey). }
  rewrite Hm. reflexivity.
Qed.

(** X11. A successful [Initialize] leaves the access token, the web API
    endpoint, the flags, the recorder and the connection factory as they
    were, and in the collector endpoint the plaintext flag and a host that
    was not empty. *)
Theorem X11_Initialize_frame (env : Env) (o o' : Options) :
  Initialize env o = (o', Some (Return None)) ->
  AccessToken o' = AccessToken o /\ LightStepAPI o' = LightStepAPI o /\
  DropSpanLogs o' = DropSpanLogs o /\ Verbose o' = Verbose o /\
  UseThrift o' = UseThrift o /\ UseHttp o' = UseHttp o /\
  UseGRPC o' = UseGRPC o /\ Recorder o' = Recorder o /\
  ConnFactory o' = ConnFactory o /\
  Plaintext (Collector o') = Plaintext (Collector o) /\
  (Host (Collector o) <> "" -> Host (Collector o') = Host (Collector o)).
Proof.
  intros H. apply Initialize_success in H as (_ & _ & _ & ->).
  repeat match goal with |- _ /\ _ => split end; try reflexivity.
  intros Hh. cbn [initialized Collector initializedCollector Host].
  destruct (String.eqb_spec (Host (Collector o)) ""); [contradiction|].
  reflexivity.
Qed.

Lemma X11_witness :
  let o' := fst (Initialize sampleEnv trivialOptions) in
  AccessToken o' = "YOUR_ACCESS_TOKEN" /\ UseGRPC o' = true /\
  Plaintext (Collector o') = true /\ Host (Collector o') = "localhost".
Proof.
  intros o'.
  destruct (X11_Initialize_frame sampleEnv trivialOptions o')
    as (Ht & _ & _ & _ & _ & _ & Hg & _ & _ & Hp & Hh).
  { vm_compute. reflexivity. }
  split; [exact Ht|]. split; [exact Hg|]. split; [exact Hp|].
  apply Hh. discriminate.
Defined.

(** X12. After a successful [Initialize] the options are complete: the
    access token is not empty, none of the limits and periods that have a
    default is zero, the collector has a host and a positive port, and the
    tags are a map without the runtime GUID key. *)
Theorem X12_Initialize_postcondition (env : Env) (o o' : Options) :
  Initialize env o = (o', Some (Return None)) ->
  AccessToken o' <> "" /\
  MaxBufferedSpans o' <> 0 /\ MaxLogKeyLen o' <> 0 /\
  MaxLogValueLen o' <> 0 /\ MaxLogsPerSpan o' <> 0 /\
  GRPCMaxCallSendMsgSizeBytes o' <> 0 /\
  ReportingPeriod o' <> 0 /\ MinReportingPeriod o' <> 0 /\
  ReportTimeout o' <> 0 /\
  Host (Collector o') <> "" /\ 0 < Port (Collector o') /\
  exists m : gmap string any, Tags o' = Map m /\ m !! GUIDKey = None.
Proof.
  intros H. apply Initialize_success in H as (Ht & Hg & _ & ->).
  cbn [initialized AccessToken MaxBufferedSpans MaxLogKeyLen MaxLogValueLen
       MaxLogsPerSpan GRPCMaxCallSendMsgSizeBytes ReportingPeriod
       MinReportingPeriod ReportTimeout Collector Tags
       initializedCollector Host Port].
  repeat match goal with |- _ /\ _ => split end;
    try (apply orDefault_nonzero; discriminate).
  - now apply emptyToken_false.
  - destruct (String.eqb_spec (Host (Collector o)) "") as [_|Hne];
      [|exact Hne].
    destruct (UseThrift o); discriminate.
  - destruct (Z.leb_spec (Port (Collector o)) 0); [|assumption].
    destruct (Plaintext (Collector o)); reflexivity.
  - eexists. split; [reflexivity|]. now apply initializedTags_noGUID.
Qed.

Lemma X12_witness :
  let o' := fst (Initialize sampleEnv negativeOptions) in
  MaxBufferedSpans o' <> 0 /\ 0 < Port (Collector o') /\
  Host (Collector o') <> "".
Proof.
  intros o'.
  destruct (X12_Initialize_postcondition sampleEnv negativeOptions o')
    as (_ & Hm & _ & _ & _ & _ & _ & _ & _ & Hh & Hp & _).
  { vm_compute. reflexivity. }
  auto.
Defined.

(** X13. After a successful [Initialize] the largest gRPC message is the
    supplied size, or [math.MaxInt32] when it was left at zero. *)
Theorem X13_grpc_message_size (env : Env) (o o' : Options) :
  Initialize env o = (o', Some (Return None)) ->
  GRPCMaxCallSendMsgSizeBytes o'
  = if GRPCMaxCallSendMsgSizeBytes o =? 0 then 2 ^ 31 - 1
    else GRPCMaxCallSendMsgSizeBytes o.
Proof.
  intros H. apply Initialize_success in H as (_ & _ & _ & ->). reflexivity.
Qed.

Lemma X13_witness :
  GRPCMaxCallSendMsgSizeBytes (fst (Initialize sampleEnv trivialOptions))
  = 2147483647.
Proof.
  apply (X13_grpc_message_size sampleEnv trivialOptions).
  vm_compute. reflexivity.
Defined.

Lemma orDefault_idem d x : d <> 0 -> orDefault d (orDefault d x) = orDefault d x.
Proof.
  intros Hd. unfold orDefault at 1.
  destruct (Z.eqb_spec (orDefault d x) 0) as [H|H]; [|reflexivity].
  now apply orDefault_nonzero in H.
Qed.

Lemma initializedCollector_idem b b' e :
  initializedCollector b' (initializedCollector b e) = initializedCollector b e.
Proof.
  unfold initializedCollector. cbn [Host Port Plaintext]. f_equal.
  - destruct (String.eqb_spec (Host e) "") as [_|Hne].
    + now destruct b.
    + destruct (String.eqb_spec (Host e) ""); [contradiction | reflexivity].
  - destruct (Z.leb_spec (Port e) 0) as [_|Hp].
    + now destruct (Plaintext e).
    + destruct (Z.leb_spec (Port e) 0); [lia | reflexivity].
Qed.

Lemma initializedTags_found env t k :
  k = ComponentNameKey \/ k = HostnameKey \/ k = CommandLineKey ->
  found k (Map (initializedTags env t)) = true.
Proof.
  intros Hk. cbn [found]. rewrite initializedTags_lookup.
  destruct (mapOf t !! k); [reflexivity|].
  destruct Hk as [Hk|[Hk|Hk]]; rewrite Hk; reflexivity.
Qed.

(** Tags that hold the three keys are left as they are. *)
Lemma initializedTags_full env m :
  found ComponentNameKey (Map m) = true -> found HostnameKey (Map m) = true ->
  found CommandLineKey (Map m) = true ->
  initializedTags env (Map m) = m.
Proof.
  intros Hc Hh Hl. unfold initializedTags. cbn [mapOf].
  now rewrite (addDefault_found ComponentNameKey), (addDefault_found HostnameKey),
    (addDefault_found CommandLineKey).
Qed.

(** X14. Options that [Initialize] has accepted are accepted again, in any
    process environment, even one with an empty [os.Args]: the second call
    returns nil and changes nothing but the reconnect period, which is
    scaled once more. *)
Theorem X14_Initialize_again (env env' : Env) (o o' : Options) :
  Initialize env o = (o', Some (Return None)) ->
  Initialize env' o'
  = (set_ReconnectPeriod
       (jitter env' (if ReconnectPeriod o' =? 0 then 5 * Minute
                     else ReconnectPeriod o')) o',
     Some (Return None)).
Proof.
  intros H. apply Initialize_success in H as (Ht & Hg & Ha & ->).
  rewrite Initialize_valid.
  - f_equal. unfold initialized at 1.
    cbn [initialized AccessToken Collector Tags LightStepAPI MaxBufferedSpans
         MaxLogKeyLen MaxLogValueLen MaxLogsPerSpan GRPCMaxCallSendMsgSizeBytes
         ReportingPeriod MinReportingPeriod ReportTimeout DropSpanLogs Verbose
         UseThrift UseHttp UseGRPC ReconnectPeriod Recorder ConnFactory
         set_ReconnectPeriod].
    rewrite !orDefault_idem by discriminate.
    rewrite initializedCollector_idem.
    rewrite initializedTags_full
      by (apply initializedTags_found; auto).
    reflexivity.
  - exact Ht.
  - unfold hasGUID. cbn [initialized Tags found].
    now rewrite initializedTags_noGUID.
  - unfold needsArgs0. cbn [initialized Tags].
    now rewrite initializedTags_found by auto.
Qed.

Lemma X14_witness :
  let o' := fst (Initialize sampleEnv trivialOptions) in
  Initialize (mkEnv [] "" 0 true amd64OutOfRange) o'
  = (set_ReconnectPeriod (ReconnectPeriod o') o', Some (Return None)).
Proof.
  intros o'.
  rewrite (X14_Initialize_again sampleEnv (mkEnv [] "" 0 true amd64OutOfRange)
             trivialOptions o').
  - vm_compute. reflexivity.
  - vm_compute. reflexivity.
Defined.

(** X15. When the tags name the component, the host and the command line
    already, [Initialize] reads neither [os.Args] nor the host name: two
    processes that differ in these only get the same options and the same
    result. *)
Theorem X15_tags_shield_environment (o : Options)
    (args1 args2 : list string) (host1 host2 : string)
    (r : Q) (fused : bool) (outOfRange : Q -> Z) :
  found ComponentNameKey (Tags o) = true ->
  found HostnameKey (Tags o) = true ->
  found CommandLineKey (Tags o) = true ->
  Initialize (mkEnv args1 host1 r fused outOfRange) o
  = Initialize (mkEnv args2 host2 r fused outOfRange) o.
Proof.
  intros Hc Hh Hl.
  destruct (emptyToken o) eqn:Ht.
  { now rewrite !Initialize_emptyToken. }
  destruct (hasGUID o) eqn:Hg.
  { now rewrite !Initialize_hasGUID. }
  rewrite !Initialize_valid; try assumption;
    try (unfold needsArgs0; rewrite Hc; reflexivity).
  f_equal. unfold initialized. destruct (Tags o) as [|m] eqn:Hm.
  { discriminate. }
  now rewrite !initializedTags_full.
Qed.

Lemma X15_witness :
  let o := set_Tags (Map (<[ CommandLineKey := AString "checkout --serve" ]>
                            (mapOf (Tags taggedOptions)))) taggedOptions in
  Initialize (mkEnv [] "" (1 # 2) false amd64OutOfRange) o
  = Initialize sampleEnv o.
Proof.
  intros o.
  apply (X15_tags_shield_environment o [] (Args sampleEnv) "" "build-host");
    vm_compute; reflexivity.
Defined.

(** ** More on the scaling of the reconnect period *)

Section ScalingFacts.
Import float64.
Local Open Scope Q_scope.
Variable fused : bool.

Lemma factor_zero r : r == 0 -> factor fused r == 1.
Proof.
  intros Hr. unfold factor, float64.fma, float64.add, float64.mul.
  assert (H1 : float64.const 1 = 1) by (vm_compute; reflexivity).
  assert (R1 : round 1 == 1) by (apply (round_int 1); lia).
  rewrite H1. set (c := float64.const (2 # 10)).
  destruct fused.
  - rewrite <- R1 at 2. apply round_comp. rewrite Hr. ring.
  - rewrite (round_zero (c * r)) by (rewrite Hr; ring).
    rewrite <- R1 at 2. apply round_comp. ring.
Qed.

Lemma factor_mono r1 r2 : r1 <= r2 -> factor fused r1 <= factor fused r2.
Proof.
  intros Hr. unfold factor, float64.fma, float64.add, float64.mul.
  assert (Hc : 0 <= float64.const (2 # 10)) by (vm_compute; discriminate).
  set (c := float64.const (2 # 10)) in *.
  assert (Hm : c * r1 <= c * r2) by now apply Qmult_le_scale.
  destruct fused; apply round_mono.
  - lra.
  - apply (round_mono _ _) in Hm. lra.
Qed.

Lemma trunc_mono x y : x <= y -> (trunc x <= trunc y)%Z.
Proof.
  intros H. destruct (Qlt_le_dec x 0) as [Hx | Hx].
  - destruct (Qlt_le_dec y 0) as [Hy | Hy].
    + rewrite !trunc_nonpos by lra. unfold Qceiling.
      apply Z.opp_le_mono. rewrite !Z.opp_involutive.
      apply Qfloor_resp_le. lra.
    + rewrite (trunc_nonpos x), (trunc_nonneg y) by lra.
      assert (Hc : (Qceiling x <= 0)%Z).
      { change 0%Z with (Qceiling 0). apply Qceiling_resp_le. lra. }
      assert (Hf : (0 <= Qfloor y)%Z).
      { change 0%Z with (Qfloor 0). now apply Qfloor_resp_le. }
      lia.
  - rewrite !trunc_nonneg by lra. now apply Qfloor_resp_le.
Qed.

Lemma trunc_inject_Z n : trunc (inject_Z n) = n.
Proof. unfold trunc. cbn. apply Z.quot_1_r. Qed.

Lemma round_int_nonneg (d : Z) : (0 <= d)%Z -> 0 <= round (inject_Z d).
Proof.
  intros Hd. change 0 with (round (inject_Z 0)).
  apply round_mono. now rewrite <- Zle_Qle.
Qed.

Lemma scale_zero_draw r (d : Z) :
  r == 0 -> (- 2 ^ 53 < d < 2 ^ 53)%Z -> scale fused r d = d.
Proof.
  intros Hr Hd. rewrite scale_unfold.
  rewrite <- (trunc_inject_Z d) at 2. apply trunc_comp.
  rewrite <- (round_int d Hd) at 2. apply round_comp.
  rewrite (round_int d Hd), (factor_zero r Hr). ring.
Qed.

Lemma scale_mono_draw r1 r2 (d : Z) :
  r1 <= r2 -> (0 <= d)%Z -> (scale fused r1 d <= scale fused r2 d)%Z.
Proof.
  intros Hr Hd. rewrite !scale_unfold.
  apply trunc_mono, round_mono, Qmult_le_scale.
  - now apply round_int_nonneg.
  - now apply factor_mono.
Qed.

Lemma scale_mono_period r (d1 d2 : Z) :
  0 <= r -> (d1 <= d2)%Z -> (scale fused r d1 <= scale fused r d2)%Z.
Proof.
  intros Hr Hd. rewrite !scale_unfold.
  apply trunc_mono, round_mono.
  pose proof (factor_ge_1 fused r Hr) as Hf.
  assert (HD : round (inject_Z d1) <= round (inject_Z d2)).
  { apply round_mono. now rewrite <- Zle_Qle. }
  rewrite (Qmult_comm (round (inject_Z d1))),
          (Qmult_comm (round (inject_Z d2))).
  apply Qmult_le_scale; [lra | exact HD].
Qed.

End ScalingFacts.

(** X16. With the draw zero, a successful [Initialize] leaves the reconnect
    period (the default when it was zero) as it is, for any period that
    float64 holds exactly, that is below [2^53] nanoseconds in magnitude. *)
Theorem X16_zero_draw_keeps_period (env : Env) (o o' : Options) :
  Initialize env o = (o', Some (Return None)) ->
  (Float64 env == 0)%Q ->
  let b := if ReconnectPeriod o =? 0 then 5 * Minute else ReconnectPeriod o in
  - 2 ^ 53 < b < 2 ^ 53 ->
  ReconnectPeriod o' = b.
Proof.
  intros H Hr b Hb. apply Initialize_success in H as (_ & _ & _ & ->).
  cbn [initialized ReconnectPeriod]. fold (orDefault DefaultReconnectPeriod (ReconnectPeriod o)).
  change (orDefault DefaultReconnectPeriod (ReconnectPeriod o)) with b.
  assert (H53 : 2 ^ 53 <= 2 ^ 62) by (vm_compute; discriminate).
  rewrite jitter_scale; [now apply scale_zero_draw | lra | lra | lia].
Qed.

Lemma X16_witness :
  ReconnectPeriod
    (fst (Initialize (envWith 0) (reconnectOptions (90 * Second))))
  = 90 * Second.
Proof.
  apply (X16_zero_draw_keeps_period (envWith 0)
           (reconnectOptions (90 * Second))).
  - vm_compute. reflexivity.
  - reflexivity.
  - vm_compute. split; reflexivity.
Defined.

(** X17. The reconnect period that [Initialize] leaves grows with the
    draw: of two processes that differ in the draw only, the one with the
    larger draw gets the longer period, for a period that is not negative
    (and the shorter one for a negative period), up to [2^62]
    nanoseconds. *)
Theorem X17_period_monotone_in_draw (o o1 o2 : Options)
    (args : list string) (host : string) (r1 r2 : Q) (fused : bool)
    (outOfRange : Q -> Z) :
  Initialize (mkEnv args host r1 fused outOfRange) o
  = (o1, Some (Return None)) ->
  Initialize (mkEnv args host r2 fused outOfRange) o
  = (o2, Some (Return None)) ->
  (0 <= r1)%Q -> (r1 <= r2)%Q -> (r2 < 1)%Q ->
  (0 <= ReconnectPeriod o <= 2 ^ 62 ->
   ReconnectPeriod o1 <= ReconnectPeriod o2) /\
  (- 2 ^ 62 <= ReconnectPeriod o < 0 ->
   ReconnectPeriod o2 <= ReconnectPeriod o1).
Proof.
  intros H1 H2 Hr1 Hr Hr2.
  apply Initialize_success in H1 as (_ & _ & _ & ->).
  apply Initialize_success in H2 as (_ & _ & _ & ->).
  cbn [initialized ReconnectPeriod].
  assert (Hd : 0 < DefaultReconnectPeriod <= 2 ^ 62)
    by (vm_compute; split; [reflexivity | discriminate]).
  split; intros Hb.
  - assert (Hb' : 0 <= orDefault DefaultReconnectPeriod (ReconnectPeriod o)
                  <= 2 ^ 62).
    { unfold orDefault. destruct (Z.eqb_spec (ReconnectPeriod o) 0); lia. }
    rewrite !jitter_scale by (cbn [Float64]; try lra; lia).
    cbn [Float64 FusedMultiplyAdd]. apply scale_mono_draw; [exact Hr | lia].
  - rewrite orDefault_neg by lia.
    rewrite !jitter_scale by (cbn [Float64]; try lra; lia).
    cbn [Float64 FusedMultiplyAdd].
    pose proof (scale_mono_draw fused r1 r2 (- ReconnectPeriod o) Hr) as Hm.
    rewrite !scale_opp in Hm. lia.
Qed.

Lemma X17_witness :
  ReconnectPeriod (fst (Initialize (envWith (1 # 4)) (tokenOptions "token")))
  <= ReconnectPeriod (fst (Initialize (envWith (3 # 4)) (tokenOptions "token"))).
Proof.
  refine (proj1 (X17_period_monotone_in_draw (tokenOptions "token") _ _
                   ["./lightstep_trivial"] "build-host" (1 # 4) (3 # 4) false
                   amd64OutOfRange _ _ _ _ _) _).
  - vm_compute. reflexivity.
  - vm_compute. reflexivity.
  - vm_compute. discriminate.
  - vm_compute. discriminate.
  - vm_compute. reflexivity.
  - vm_compute. split; discriminate.
Defined.

(** X18. [Initialize] keeps the order of reconnect periods: in one process
    environment, of two option sets the one with the longer period (the
    default standing for zero) is left with the longer period, up to [2^62]
    nanoseconds either side of zero. *)
Theorem X18_period_order_kept (env : Env) (oa ob oa' ob' : Options) :
  Initialize env oa = (oa', Some (Return None)) ->
  Initialize env ob = (ob', Some (Return None)) ->
  (0 <= Float64 env)%Q -> (Float64 env < 1)%Q ->
  let base := fun o : Options =>
    if ReconnectPeriod o =? 0 then 5 * Minute else ReconnectPeriod o in
  - 2 ^ 62 <= base oa -> base oa <= base ob -> base ob <= 2 ^ 62 ->
  ReconnectPeriod oa' <= ReconnectPeriod ob'.
Proof.
  intros Ha Hb Hr Hr1 base H1 H2 H3.
  apply Initialize_success in Ha as (_ & _ & _ & ->).
  apply Initialize_success in Hb as (_ & _ & _ & ->).
  cbn [initialized ReconnectPeriod].
  change (base oa) with (orDefault DefaultReconnectPeriod (ReconnectPeriod oa))
    in H1, H2.
  change (base ob) with (orDefault DefaultReconnectPeriod (ReconnectPeriod ob))
    in H2, H3.
  rewrite !jitter_scale by (try assumption; lia).
  now apply scale_mono_period.
Qed.

Lemma X18_witness :
  ReconnectPeriod
    (fst (Initialize sampleEnv (reconnectOptions (90 * Second))))
  <= ReconnectPeriod (fst (Initialize sampleEnv (tokenOptions "token"))).
Proof.
  apply (X18_period_order_kept sampleEnv (reconnectOptions (90 * Second))
           (tokenOptions "token")).
  - vm_compute. reflexivity.
  - vm_compute. reflexivity.
  - vm_compute. discriminate.
  - vm_compute. reflexivity.
  - vm_compute. discriminate.
  - vm_compute. discriminate.
  - vm_compute. discriminate.
Defined.

(** ** The default component name *)

Lemma afterLastSlash_noslash p : hasSlash (afterLastSlash p) = false.
Proof.
  induction p as [|c p IH]; [reflexivity|]. cbn [afterLastSlash].
  destruct (hasSlash p) eqn:Hp; [exact IH|].
  destruct (Ascii.eqb c "/") eqn:Hc; [exact Hp|].
  cbn [hasSlash]. now rewrite Hc, Hp.
Qed.

Lemma path_Base_nonempty p : path_Base p <> "".
Proof.
  unfold path_Base. destruct p; [discriminate|].
  destruct (afterLastSlash _); discriminate.
Qed.

Lemma path_Base_noslash p : path_Base p = "/" \/ hasSlash (path_Base p) = false.
Proof.
  unfold path_Base. destruct p as [|c p]; [now right|].
  pose proof (afterLastSlash_noslash (stripTrailingSlashes (String c p))) as H.
  destruct (afterLastSlash _); [now left | now right].
Qed.

(** X19. When the tags do not name the component, a successful
    [Initialize] has had a first program argument to read, and the name it
    sets is the base of that argument: never the empty string, and without
    a slash unless it is the root ["/"]. *)
Theorem X19_default_component_name (env : Env) (o o' : Options) :
  Initialize env o = (o', Some (Return None)) ->
  found ComponentNameKey (Tags o) = false ->
  exists (arg0 : string) (rest : list string) (m : gmap string any),
    Args env = arg0 :: rest /\ Tags o' = Map m /\
    m !! ComponentNameKey = Some (AString (path_Base arg0)) /\
    path_Base arg0 <> "" /\
    (path_Base arg0 = "/" \/ hasSlash (path_Base arg0) = false).
Proof.
  intros H Hc. apply Initialize_success in H as (_ & _ & Ha & ->).
  unfold needsArgs0 in Ha. rewrite Hc in Ha.
  destruct (Args env) as [|arg0 rest] eqn:Hargs; [discriminate|].
  exists arg0, rest, (initializedTags env (Tags o)).
  split; [reflexivity|]. split; [reflexivity|]. split; [|split].
  - rewrite initializedTags_lookup.
    assert (Hm : mapOf (Tags o) !! ComponentNameKey = None).
    { destruct (Tags o) as [|m]; [reflexivity|]. cbn in *.
      now destruct (m !! ComponentNameKey). }
    rewrite Hm, Hargs. reflexivity.
  - apply path_Base_nonempty.
  - apply path_Base_noslash.
Qed.

Lemma X19_witness :
  exists m : gmap string any,
    Tags (fst (Initialize sampleEnv trivialOptions)) = Map m /\
    m !! ComponentNameKey = Some (AString "lightstep_trivial").
Proof.
  destruct (X19_default_component_name sampleEnv trivialOptions
              (fst (Initialize sampleEnv trivialOptions)))
    as (arg0 & rest & m & Hargs & Hm & Hc & _).
  - vm_compute. reflexivity.
  - reflexivity.
  - exists m. split; [exact Hm|]. rewrite Hc.
    injection Hargs as <- _. reflexivity.
Defined.

(** ** The options a panic leaves behind *)

Lemma Initialize_panic_state env o :
  emptyToken o = false -> hasGUID o = false -> needsArgs0 env o = true ->
  Initialize env o
  = (defaulted o, Some (Panic "index out of range [0] with length 0")).
Proof.
  intros Htok Hguid Hargs. unfold Initialize.
  rewrite seq_If_false by exact Htok.
  rewrite seq_If_false by exact Hguid.
  destruct o as [tok [host port plain] tags api mbs mlk mlv mls grpc rp mrp rt
                 dsl vb thrift http ugrpc rcp rec cf].
  unfold needsArgs0 in Hargs. clear Htok Hguid. cbn [Tags] in Hargs.
  apply andb_true_iff in Hargs as [Hcomp Hargs].
  unfold with_Args0. destruct (Args env); [clear Hargs | discriminate].
  zero_step MaxBufferedSpans set_MaxBufferedSpans.
  zero_step MaxLogKeyLen set_MaxLogKeyLen.
  zero_step MaxLogValueLen set_MaxLogValueLen.
  zero_step MaxLogsPerSpan set_MaxLogsPerSpan.
  zero_step GRPCMaxCallSendMsgSizeBytes set_GRPCMaxCallSendMsgSizeBytes.
  zero_step ReportingPeriod set_ReportingPeriod.
  zero_step MinReportingPeriod set_MinReportingPeriod.
  zero_step ReportTimeout set_ReportTimeout.
  zero_step ReconnectPeriod set_ReconnectPeriod.
  destruct tags as [|m].
  - rewrite seq_If_true, seq_assign by reflexivity. options_cbn.
    rewrite seq_If_panic by reflexivity. reflexivity.
  - rewrite seq_If_false by reflexivity.
    rewrite seq_If_panic by exact Hcomp. reflexivity.
Qed.

(** X20. A panic of [Initialize] does not leave the options as they were,
    unlike an error: the zero limits and periods hold their defaults and
    nil tags have become an empty map, while the reconnect period is not
    scaled, the tags have received no entry and the collector is as
    supplied. *)
Theorem X20_panic_leaves_defaults (env : Env) (o o' : Options) (msg : string) :
  Initialize env o = (o', Some (Panic msg)) ->
  o' = defaulted o /\
  Tags o' = Map (mapOf (Tags o)) /\ Collector o' = Collector o /\
  ReconnectPeriod o'
  = (if ReconnectPeriod o =? 0 then 5 * Minute else ReconnectPeriod o) /\
  MaxBufferedSpans o'
  = (if MaxBufferedSpans o =? 0 then 1000 else MaxBufferedSpans o).
Proof.
  intros H.
  assert (Ho : o' = defaulted o).
  { destruct (emptyToken o) eqn:Ht.
    { rewrite Initialize_emptyToken in H by exact Ht. discriminate. }
    destruct (hasGUID o) eqn:Hg.
    { rewrite Initialize_hasGUID in H by assumption. discriminate. }
    destruct (needsArgs0 env o) eqn:Ha.
    - rewrite Initialize_panic_state in H by assumption. now injection H.
    - rewrite Initialize_valid in H by assumption. discriminate. }
  subst o'. repeat split.
Qed.

Lemma X20_witness :
  let o' := fst (Initialize noArgsEnv (tokenOptions "token")) in
  Tags o' = Map ∅ /\ ReconnectPeriod o' = 5 * Minute /\
  MaxBufferedSpans o' = 1000.
Proof.
  intros o'.
  destruct (X20_panic_leaves_defaults noArgsEnv (tokenOptions "token") o'
              "index out of range [0] with length 0")
    as (_ & Ht & _ & Hr & Hm).
  { vm_compute. reflexivity. }
  split; [exact Ht|]. split; [exact Hr | exact Hm].
Defined.

(** ** Options reached through [Apply] only *)


